(** * gogl: graph specification builder, null graph and Bernoulli generators

    A shallow embedding of the parts of gogl that its specification makes
    claims about:

    - [builder.go]: the [GraphProperties] bitfield and the fluent
      [GraphSpec] builder (and the earlier [BuildGraph] revision of the
      same file);
    - [spec/suite_label.go]: the [nullGraph] sentinel;
    - [rand/bernoulli.go]: the stable and unstable Bernoulli generators and
      the two edge creators they share.

    Conventions.  Go's [int] and [uint] are taken to be 64 bits wide (as on
    amd64 and arm64) and are carried as [Z] with the conversions and the
    wrap-around written out.  [float64] is Rocq's primitive binary64
    [float].  A Go closure that reads or writes captured variables is a
    function that takes the captured state and returns it next to its
    result; a panic is an explicit flag or result. *)

From Stdlib Require Import ZArith Floats QArith Lia Bool.
From Stdlib Require Strings.String.
From stdpp Require Import base list.

Local Open Scope Z_scope.

(** ** Machine integers *)

Module GoInt.

Definition int_bits : Z := 64.
Definition max_int : Z := 2 ^ 63 - 1.
Definition min_int : Z := - 2 ^ 63.
Definition max_uint : Z := 2 ^ 64 - 1.

Definition is_int (z : Z) : Prop := min_int <= z <= max_int.
Definition is_uint (z : Z) : Prop := 0 <= z <= max_uint.

(** Two's-complement reduction of a mathematical integer to [int]. *)
Definition wrap_int (z : Z) : Z :=
  (z + 2 ^ 63) mod 2 ^ 64 - 2 ^ 63.

(** The conversion [int(x)] of a [uint]: same bits, read as signed. *)
Definition int_of_uint (x : Z) : Z := wrap_int x.

Definition int_sub (a b : Z) : Z := wrap_int (a - b).
Definition int_add (a b : Z) : Z := wrap_int (a + b).
Definition int_mul (a b : Z) : Z := wrap_int (a * b).

(** Go's [/] on integers truncates toward zero.  The one overflowing
    case, [min_int / -1], does not arise for a constant divisor 2. *)
Definition int_div (a b : Z) : Z := wrap_int (Z.quot a b).

End GoInt.

(** ** builder.go: graph properties and the spec builder *)

Module Builder.

(** [type GraphProperties uint16] *)
Definition GraphProperties : Type := Z.

Definition is_uint16 (p : GraphProperties) : Prop := 0 <= p < 2 ^ 16.

(** The constant block: [1 << iota] for iota = 0 .. 10, then
    [G_PERSISTENT = 1<<iota | G_MUTABLE] with iota = 11. *)
Definition G_UNDIRECTED : GraphProperties := Z.shiftl 1 0.
Definition G_DIRECTED   : GraphProperties := Z.shiftl 1 1.
Definition G_BASIC      : GraphProperties := Z.shiftl 1 2.
Definition G_LABELED    : GraphProperties := Z.shiftl 1 3.
Definition G_WEIGHTED   : GraphProperties := Z.shiftl 1 4.
Definition G_DATA       : GraphProperties := Z.shiftl 1 5.
Definition G_SIMPLE     : GraphProperties := Z.shiftl 1 6.
Definition G_LOOPS      : GraphProperties := Z.shiftl 1 7.
Definition G_PARALLEL   : GraphProperties := Z.shiftl 1 8.
Definition G_IMMUTABLE  : GraphProperties := Z.shiftl 1 9.
Definition G_MUTABLE    : GraphProperties := Z.shiftl 1 10.
Definition G_PERSISTENT : GraphProperties := Z.lor (Z.shiftl 1 11) G_MUTABLE.

(** [p &^= m] and [p |= m]. *)
Definition and_not (p m : GraphProperties) : GraphProperties := Z.ldiff p m.
Definition or_in (p m : GraphProperties) : GraphProperties := Z.lor p m.

(** A flag is active when all of its bits are set: [p & f == f]. *)
Definition has_flag (p f : GraphProperties) : bool := Z.land p f =? f.

Section Spec.

(** [GraphSource] is an interface; a nil interface value is [None]. *)
Variable GraphSource : Type.

Record GraphSpec : Type := mkGraphSpec {
  Props : GraphProperties;
  Source : option GraphSource
}.

Definition set_props (b : GraphSpec) (p : GraphProperties) : GraphSpec :=
  {| Props := p; Source := Source b |}.

Definition Spec : GraphSpec :=
  {| Props := Z.lor (Z.lor (Z.lor G_UNDIRECTED G_SIMPLE) G_BASIC) G_MUTABLE;
     Source := None |}.

Definition Using (b : GraphSpec) (g : option GraphSource) : GraphSpec :=
  {| Props := Props b; Source := g |}.

Definition Undirected (b : GraphSpec) : GraphSpec :=
  set_props b (or_in (and_not (Props b) G_DIRECTED) G_UNDIRECTED).

Definition Directed (b : GraphSpec) : GraphSpec :=
  set_props b (or_in (and_not (Props b) G_UNDIRECTED) G_DIRECTED).

Definition Basic (b : GraphSpec) : GraphSpec :=
  set_props b
    (or_in (and_not (Props b) (Z.lor (Z.lor G_LABELED G_WEIGHTED) G_DATA))
           G_BASIC).

Definition Labeled (b : GraphSpec) : GraphSpec :=
  set_props b (or_in (and_not (Props b) G_BASIC) G_LABELED).

Definition Weighted (b : GraphSpec) : GraphSpec :=
  set_props b (or_in (and_not (Props b) G_BASIC) G_WEIGHTED).

Definition DataEdges (b : GraphSpec) : GraphSpec :=
  set_props b (or_in (and_not (Props b) G_BASIC) G_DATA).

Definition SimpleGraph (b : GraphSpec) : GraphSpec :=
  set_props b (or_in (and_not (Props b) (Z.lor G_LOOPS G_PARALLEL)) G_SIMPLE).

Definition MultiGraph (b : GraphSpec) : GraphSpec :=
  set_props b (or_in (and_not (Props b) (Z.lor G_SIMPLE G_LOOPS)) G_PARALLEL).

Definition PseudoGraph (b : GraphSpec) : GraphSpec :=
  set_props b (or_in (and_not (Props b) G_SIMPLE) (Z.lor G_LOOPS G_PARALLEL)).

Definition Parallel (b : GraphSpec) : GraphSpec :=
  set_props b (or_in (and_not (Props b) G_SIMPLE) G_PARALLEL).

Definition Loop (b : GraphSpec) : GraphSpec :=
  set_props b (or_in (and_not (Props b) G_SIMPLE) G_LOOPS).

Definition Mutable (b : GraphSpec) : GraphSpec :=
  set_props b
    (or_in (and_not (Props b) (Z.lor G_IMMUTABLE G_PERSISTENT)) G_MUTABLE).

Definition Immutable (b : GraphSpec) : GraphSpec :=
  set_props b
    (or_in (and_not (Props b) (Z.lor G_PERSISTENT G_MUTABLE)) G_IMMUTABLE).

(** [Create] hands the spec to the factory. *)
Definition Create {Graph : Type} (b : GraphSpec) (f : GraphSpec -> Graph)
  : Graph := f b.

(** *** The builder methods as data

    The four axes of the specification and, for every method, the axis it
    belongs to and the flags it switches on. *)

Inductive axis : Type :=
  Directedness | Richness | Multiplicity | Mutability.

Inductive method : Type :=
| MUndirected | MDirected
| MBasic | MLabeled | MWeighted | MDataEdges
| MSimpleGraph | MMultiGraph | MPseudoGraph | MParallel | MLoop
| MMutable | MImmutable.

Definition run (m : method) : GraphSpec -> GraphSpec :=
  match m with
  | MUndirected => Undirected | MDirected => Directed
  | MBasic => Basic | MLabeled => Labeled
  | MWeighted => Weighted | MDataEdges => DataEdges
  | MSimpleGraph => SimpleGraph | MMultiGraph => MultiGraph
  | MPseudoGraph => PseudoGraph | MParallel => Parallel | MLoop => Loop
  | MMutable => Mutable | MImmutable => Immutable
  end.

Definition axis_of (m : method) : axis :=
  match m with
  | MUndirected | MDirected => Directedness
  | MBasic | MLabeled | MWeighted | MDataEdges => Richness
  | MSimpleGraph | MMultiGraph | MPseudoGraph | MParallel | MLoop =>
      Multiplicity
  | MMutable | MImmutable => Mutability
  end.

(** The flags a method switches on (the operand of its [|=]). *)
Definition value_of (m : method) : GraphProperties :=
  match m with
  | MUndirected => G_UNDIRECTED | MDirected => G_DIRECTED
  | MBasic => G_BASIC | MLabeled => G_LABELED
  | MWeighted => G_WEIGHTED | MDataEdges => G_DATA
  | MSimpleGraph => G_SIMPLE | MMultiGraph => G_PARALLEL
  | MPseudoGraph => Z.lor G_LOOPS G_PARALLEL
  | MParallel => G_PARALLEL | MLoop => G_LOOPS
  | MMutable => G_MUTABLE | MImmutable => G_IMMUTABLE
  end.

(** The flags a method switches off (the operand of its [&^=]). *)
Definition cleared_by (m : method) : GraphProperties :=
  match m with
  | MUndirected => G_DIRECTED | MDirected => G_UNDIRECTED
  | MBasic => Z.lor (Z.lor G_LABELED G_WEIGHTED) G_DATA
  | MLabeled | MWeighted | MDataEdges => G_BASIC
  | MSimpleGraph => Z.lor G_LOOPS G_PARALLEL
  | MMultiGraph => Z.lor G_SIMPLE G_LOOPS
  | MPseudoGraph | MParallel | MLoop => G_SIMPLE
  | MMutable => Z.lor G_IMMUTABLE G_PERSISTENT
  | MImmutable => Z.lor G_PERSISTENT G_MUTABLE
  end.

(** All the bits of one axis. *)
Definition axis_mask (a : axis) : GraphProperties :=
  match a with
  | Directedness => Z.lor G_UNDIRECTED G_DIRECTED
  | Richness => Z.lor (Z.lor (Z.lor G_BASIC G_LABELED) G_WEIGHTED) G_DATA
  | Multiplicity => Z.lor (Z.lor G_SIMPLE G_LOOPS) G_PARALLEL
  | Mutability => Z.lor (Z.lor G_IMMUTABLE G_MUTABLE) G_PERSISTENT
  end.

(** What is active on an axis: the bits of [p] that belong to it. *)
Definition active_on (a : axis) (p : GraphProperties) : GraphProperties :=
  Z.land p (axis_mask a).

(** The specification's reading for one ordered pair of methods: after
    [first] then [second], exactly the value of [second] is active on its
    axis (so whatever [first] had set there is cleared). *)
Definition last_write_wins (first second : method) : Prop :=
  forall b : GraphSpec,
    is_uint16 (Props b) ->
    active_on (axis_of second) (Props (run second (run first b)))
    = value_of second.

(** The pairs for which the code does that.  [Undirected], [Directed],
    [Basic], [SimpleGraph], [MultiGraph], [PseudoGraph], [Mutable] and
    [Immutable] clear every other bit of their axis, so they win after any
    method.  [Labeled], [Weighted] and [DataEdges] clear only [G_BASIC]:
    they win after [Basic] and accumulate otherwise.  [Parallel] and [Loop]
    clear only [G_SIMPLE]: each adds one permission to what is there. *)
Definition overrides (first second : method) : bool :=
  match second with
  | MUndirected | MDirected | MBasic
  | MSimpleGraph | MMultiGraph | MPseudoGraph
  | MMutable | MImmutable => true
  | MLabeled | MWeighted | MDataEdges =>
      match first with MBasic => true | _ => false end
  | MParallel =>
      match first with MSimpleGraph | MMultiGraph => true | _ => false end
  | MLoop =>
      match first with MSimpleGraph => true | _ => false end
  end.

(** The spec with every bit of a [uint16] set. *)
Definition all_set : GraphSpec := {| Props := 2 ^ 16 - 1; Source := None |}.

End Spec.

Arguments all_set {GraphSource}.
Arguments Props {GraphSource} _.
Arguments Source {GraphSource} _.
Arguments Spec {GraphSource}.
Arguments run {GraphSource} _ _.

End Builder.

(** ** The earlier revision of the builder ([BuildGraph])

    The repository also carries the revision of the builder file in which
    the entry point is [BuildGraph] and the methods only switch bits on
    (or, for [BasicEdges] and [SimpleGraph], off).  The constant block of
    that revision is not among the sources (it names [G_MULTI], which the
    current block does not declare), so the flag values are parameters. *)

Module BuildGraphRevision.

Section Flags.

Variables G_UNDIRECTED G_DIRECTED G_LABELED G_WEIGHTED G_DATA
          G_LOOPS G_MULTI : Z.
Variable GraphSource : Type.

Record GraphSpec : Type := mkGraphSpec {
  Props : Z;
  Source : option GraphSource
}.

Definition set_props (b : GraphSpec) (p : Z) : GraphSpec :=
  {| Props := p; Source := Source b |}.

Definition BuildGraph : GraphSpec :=
  {| Props := G_UNDIRECTED; Source := None |}.

Definition Using (b : GraphSpec) (g : option GraphSource) : GraphSpec :=
  {| Props := Props b; Source := g |}.

Definition Undirected (b : GraphSpec) : GraphSpec :=
  set_props b (Z.lor (Props b) G_UNDIRECTED).

Definition Directed (b : GraphSpec) : GraphSpec :=
  set_props b (Z.lor (Props b) G_DIRECTED).

Definition BasicEdges (b : GraphSpec) : GraphSpec :=
  set_props b (Z.ldiff (Props b) (Z.lor (Z.lor G_LABELED G_WEIGHTED) G_DATA)).

Definition LabeledEdges (b : GraphSpec) : GraphSpec :=
  set_props b (Z.lor (Props b) G_LABELED).

Definition WeightedEdges (b : GraphSpec) : GraphSpec :=
  set_props b (Z.lor (Props b) G_WEIGHTED).

Definition DataEdges (b : GraphSpec) : GraphSpec :=
  set_props b (Z.lor (Props b) G_DATA).

Definition SimpleGraph (b : GraphSpec) : GraphSpec :=
  set_props b (Z.ldiff (Props b) (Z.lor G_LOOPS G_MULTI)).

Definition MultiGraph (b : GraphSpec) : GraphSpec :=
  set_props b (Z.lor (Props b) G_MULTI).

Definition Loops (b : GraphSpec) : GraphSpec :=
  set_props b (Z.lor (Props b) G_LOOPS).

End Flags.

End BuildGraphRevision.

(** ** Callbacks

    A step function ([VertexStep], [EdgeStep], [ArcStep], [VertexLambda],
    [EdgeLambda]) is a Go closure returning the "terminate" signal.  What it
    captures is the caller's state [St], threaded through every call. *)

Definition Step (X St : Type) : Type := X -> St -> bool * St.

(** A step function that also writes down every call made to it, with the
    signal it answered: the delivered elements are the first components of
    the log, in order of delivery. *)
Definition logged {X St : Type} (f : Step X St) : Step X (St * list (X * bool)) :=
  fun x s =>
    let '(stop, a) := f x (fst s) in
    (stop, (a, snd s ++ [(x, stop)])).

Definition delivered {X : Type} (log : list (X * bool)) : list X := map fst log.

(** ** spec/suite_label.go: the null graph *)

Module Null.

Section NullGraph.

(** The interfaces the methods mention; their declarations are in files
    that the null graph never inspects. *)
Variables Vertex Edge Arc WeightedEdge LabeledEdge DataEdge : Type.

(** [type nullGraph bool], [const NullGraph = nullGraph(false)] *)
Definition nullGraph : Type := bool.
Definition NullGraph : nullGraph := false.

Definition Vertices {St} (g : nullGraph) (f : Step Vertex St) (s : St) : St := s.
Definition Edges {St} (g : nullGraph) (f : Step Edge St) (s : St) : St := s.
Definition Arcs {St} (g : nullGraph) (f : Step Arc St) (s : St) : St := s.
Definition IncidentTo {St} (g : nullGraph) (v : Vertex) (f : Step Edge St)
  (s : St) : St := s.
Definition ArcsFrom {St} (g : nullGraph) (v : Vertex) (f : Step Arc St)
  (s : St) : St := s.
Definition PredecessorsOf {St} (g : nullGraph) (v : Vertex)
  (f : Step Vertex St) (s : St) : St := s.
Definition ArcsTo {St} (g : nullGraph) (v : Vertex) (f : Step Arc St)
  (s : St) : St := s.
Definition SuccessorsOf {St} (g : nullGraph) (v : Vertex)
  (f : Step Vertex St) (s : St) : St := s.
Definition AdjacentTo {St} (g : nullGraph) (start : Vertex)
  (f : Step Vertex St) (s : St) : St := s.

Definition HasVertex (g : nullGraph) (v : Vertex) : bool := false.

(** [(degree int, exists bool)] *)
Definition InDegreeOf (g : nullGraph) (v : Vertex) : Z * bool := (0, false).
Definition OutDegreeOf (g : nullGraph) (v : Vertex) : Z * bool := (0, false).
Definition DegreeOf (g : nullGraph) (v : Vertex) : Z * bool := (0, false).

Definition HasEdge (g : nullGraph) (e : Edge) : bool := false.
Definition HasArc (g : nullGraph) (e : Arc) : bool := false.
Definition HasWeightedEdge (g : nullGraph) (e : WeightedEdge) : bool := false.
Definition HasLabeledEdge (g : nullGraph) (e : LabeledEdge) : bool := false.
Definition HasDataEdge (g : nullGraph) (e : DataEdge) : bool := false.

(** [math.NaN()] *)
Definition Density (g : nullGraph) : float := nan.

Definition Transpose (g : nullGraph) : nullGraph := g.

End NullGraph.

End Null.

(** ** Loops

    [for i := lo; i < hi; i++ { body }] where the body may execute
    [return]: the boolean of the result says whether the enclosing function
    has returned.  The counter runs below [hi], which is an [int], so its
    increment cannot wrap. *)

Fixpoint for_steps {St : Type} (n : nat) (i : Z) (body : Z -> St -> bool * St)
  (s : St) : bool * St :=
  match n with
  | O => (false, s)
  | S n' =>
      let '(ret, s') := body i s in
      if ret then (true, s') else for_steps n' (i + 1) body s'
  end.

Definition for_range {St : Type} (lo hi : Z) (body : Z -> St -> bool * St)
  (s : St) : bool * St :=
  for_steps (Z.to_nat (hi - lo)) lo body s.

(** [for i, x := range l { body }], again with [return] in the body. *)
Fixpoint range_from {T St : Type} (l : list T) (i : Z)
  (body : Z -> T -> St -> bool * St) (s : St) : bool * St :=
  match l with
  | [] => (false, s)
  | x :: l' =>
      let '(ret, s') := body i x s in
      if ret then (true, s') else range_from l' (i + 1) body s'
  end.

Definition range_loop {T St : Type} (l : list T)
  (body : Z -> T -> St -> bool * St) (s : St) : bool * St :=
  range_from l 0 body s.

(** ** float64 conversions *)

Module GoFloat.

(** [float64(z)] for an [int] z: the nearest binary64, ties to even. *)
Definition of_int (z : Z) : float :=
  SF2Prim (binary_normalize prec emax z 0 false).

(** [int(f)]: the fraction is discarded (truncation toward zero).  Go leaves
    the result implementation-dependent when the value does not fit; amd64
    yields the smallest [int] there and for NaN, which is what is written
    here. *)
Definition to_int (f : float) : Z :=
  match Prim2SF f with
  | S754_zero _ => 0
  | S754_finite sign m e =>
      let magnitude :=
        if 0 <=? e then Z.shiftl (Z.pos m) e else Z.shiftr (Z.pos m) (- e) in
      let v := if sign then - magnitude else magnitude in
      if (GoInt.min_int <=? v) && (v <=? GoInt.max_int) then v
      else GoInt.min_int
  | S754_infinity _ | S754_nan => GoInt.min_int
  end.

(** The rational a finite binary64 stands for. *)
Definition to_Q (f : float) : option Q :=
  match Prim2SF f with
  | S754_zero _ => Some 0%Q
  | S754_finite sign m e =>
      let mag : Q :=
        if 0 <=? e then inject_Z (Z.shiftl (Z.pos m) e)
        else Qmake (Z.pos m) (Z.to_pos (2 ^ (- e))) in
      Some (if sign then Qopp mag else mag)
  | S754_infinity _ | S754_nan => None
  end.

End GoFloat.

(** ** rand/bernoulli.go *)

Module Bernoulli.

Import GoInt.

(** The generators hand out Go [int]s as vertices. *)
Definition Vertex : Type := Z.

(** [gogl.BaseEdge] *)
Record BaseEdge : Type := mkEdge { U : Vertex; V : Vertex }.

Definition Source (e : BaseEdge) : Vertex := U e.
Definition Target (e : BaseEdge) : Vertex := V e.
Definition Both (e : BaseEdge) : Vertex * Vertex := (U e, V e).

Definition VertexLambda (St : Type) : Type := Step Vertex St.
Definition EdgeLambda (St : Type) : Type := Step BaseEdge St.

(** [type bTrial func(ρ float64) bool]: a closure over a random source,
    whose state is what it captures. *)
Definition bTrial (St : Type) : Type := float -> St -> bool * St.

(** *** The two edge creators

    [St] is everything the two closures [el] and [cmp] capture. *)

Definition bernoulliEdgeCreator {St : Type} (el : EdgeLambda St) (order : Z)
  (rho : float) (cmp : bTrial St) (s : St) : St :=
  snd (for_range 0 order (fun u s =>
         for_range (u + 1) order (fun v s =>
           let '(hit, s1) := cmp rho s in
           if hit then el {| U := u; V := v |} s1
           else (false, s1)) s) s).

Definition bernoulliArcCreator {St : Type} (el : EdgeLambda St) (order : Z)
  (rho : float) (cmp : bTrial St) (s : St) : St :=
  snd (for_range 0 order (fun u s =>
         for_range 0 order (fun v s =>
           if negb (u =? v) then
             let '(hit, s1) := cmp rho s in
             if hit then el {| U := u; V := v |} s1
             else (false, s1)
           else (false, s)) s) s).

(** *** Slices of empty structs

    A [[]struct{}] holds no data: all there is to it is its length, and
    whether it is nil.  [make] panics when the requested length, a [uint],
    is not a valid [int]; running out of memory is not modelled. *)

Definition row : Type := option (list unit).
Definition table : Type := option (list row).

Definition make {T : Type} (zero : T) (len : Z) : option (list T) :=
  if len <=? max_int then Some (replicate (Z.to_nat len) zero) else None.

(** [l[i]] and [l[i] = x]; [None] is the index-out-of-range panic. *)
Definition index {T : Type} (l : list T) (i : Z) : option T :=
  if 0 <=? i then l !! Z.to_nat i else None.

Definition store {T : Type} (l : list T) (i : Z) (x : T) : option (list T) :=
  if (0 <=? i) && (i <? Z.of_nat (length l)) then Some (<[Z.to_nat i := x]> l)
  else None.

Section Generators.

(** The random source behind a trial: its state, and [Float64] drawing the
    next number from it. *)
Variable RS : Type.
Variable Float64 : RS -> float * RS.

Record stableBernoulliGraph : Type := mkStable {
  s_order : Z;
  s_rho : float;
  s_trial : bTrial RS;
  s_size : Z;
  s_directed : bool;
  s_list : table
}.

Record unstableBernoulliGraph : Type := mkUnstable {
  u_order : Z;
  u_rho : float;
  u_trial : bTrial RS;
  u_directed : bool
}.

(** [gogl.GraphEnumerator], as far as this package implements it. *)
Inductive GraphEnumerator : Type :=
| Stable (g : stableBernoulliGraph)
| Unstable (g : unstableBernoulliGraph).

Inductive outcome (T : Type) : Type :=
| Returned (x : T)
| Panicked.

Arguments Returned {T} x.
Arguments Panicked {T}.

(** Both closures draw one number and compare it with ρ; [src] only decides
    from which source (the process-wide one, or a [rand.Rand] of the
    generator's own).  The state of that source is passed to every
    traversal. *)
Definition BernoulliDistribution (n : Z) (rho : float) (directed stable : bool)
  (src : option RS) : outcome GraphEnumerator :=
  if (rho <? 0)%float || (1 <=? rho)%float then Panicked
  else
    let f : bTrial RS :=
      match src with
      | None => fun rho r => let '(x, r') := Float64 r in ((x <? rho)%float, r')
      | Some _ => fun rho r => let '(x, r') := Float64 r in ((x <? rho)%float, r')
      end in
    if stable then
      Returned (Stable {| s_order := n; s_rho := rho; s_trial := f;
                          s_size := 0; s_directed := directed;
                          s_list := None |})
    else
      Returned (Unstable {| u_order := n; u_rho := rho; u_trial := f;
                            u_directed := directed |}).

(** *** A traversal of the stable generator

    The generator is behind a pointer: a traversal may change it.  The
    state of a running traversal is the generator, the random source, what
    the caller's step function captures, and whether a run-time panic has
    unwound the call. *)
Record run (A : Type) : Type := mkRun {
  graph : stableBernoulliGraph;
  source : RS;
  caller : A;
  panicked : bool
}.

Arguments mkRun {A} _ _ _ _.
Arguments graph {A} _.
Arguments source {A} _.
Arguments caller {A} _.
Arguments panicked {A} _.

Definition with_list (g : stableBernoulliGraph) (l : table) : stableBernoulliGraph :=
  {| s_order := s_order g; s_rho := s_rho g; s_trial := s_trial g;
     s_size := s_size g; s_directed := s_directed g; s_list := l |}.

Definition with_size (g : stableBernoulliGraph) (n : Z) : stableBernoulliGraph :=
  {| s_order := s_order g; s_rho := s_rho g; s_trial := s_trial g;
     s_size := n; s_directed := s_directed g; s_list := s_list g |}.

Definition panic {A : Type} (w : run A) : run A :=
  mkRun (graph w) (source w) (caller w) true.

(** The body of the wrapping lambda [ff] up to its call of [f]: allocate
    the row of the source vertex if it is nil, mark the target in it, count
    the edge. *)
Definition record_edge (g : stableBernoulliGraph) (e : BaseEdge)
  : option stableBernoulliGraph :=
  l ← s_list g;
  r ← index l (Source e);
  r1 ← match r with
       | None => make tt (s_order g)
       | Some cells => Some cells
       end;
  r2 ← store r1 (Target e) tt;
  l1 ← store l (Source e) (Some r2);
  Some (with_size (with_list g (Some l1)) (int_add (s_size g) 1)).

Definition stable_ff {A : Type} (f : EdgeLambda A) : EdgeLambda (run A) :=
  fun e w =>
    match record_edge (graph w) e with
    | None => (true, panic w)
    | Some g' =>
        let '(stop, a) := f e (caller w) in
        (stop, mkRun g' (source w) a (panicked w))
    end.

(** The trial, drawing from the source of the running traversal. *)
Definition stable_trial {A : Type} (t : bTrial RS) : bTrial (run A) :=
  fun rho w =>
    let '(hit, r) := t rho (source w) in
    (hit, mkRun (graph w) r (caller w) (panicked w)).

Definition stable_replay {A : Type} (f : EdgeLambda A) (l : list row)
  (w : run A) : run A :=
  snd (range_loop l (fun u adj w =>
         match adj with
         | None => (false, w)
         | Some cells =>
             range_loop cells (fun v _ w =>
               let '(stop, a) := f {| U := u; V := v |} (caller w) in
               (stop, mkRun (graph w) (source w) a (panicked w))) w
         end) w).

Definition stable_EachEdge {A : Type} (f : EdgeLambda A) (w : run A) : run A :=
  let g := graph w in
  match s_list g with
  | None =>
      match make (None : row) (s_order g) with
      | None => panic w
      | Some l =>
          let w1 := mkRun (with_list g (Some l)) (source w) (caller w)
                          (panicked w) in
          if s_directed g then
            bernoulliArcCreator (stable_ff f) (int_of_uint (s_order g))
              (s_rho g) (stable_trial (s_trial g)) w1
          else
            bernoulliEdgeCreator (stable_ff f) (int_of_uint (s_order g))
              (s_rho g) (stable_trial (s_trial g)) w1
      end
  | Some l => stable_replay f l w
  end.

Definition stable_EachVertex {A : Type} (g : stableBernoulliGraph)
  (f : VertexLambda A) (a : A) : A :=
  snd (for_range 0 (int_of_uint (s_order g)) f a).

Definition stable_Order (g : stableBernoulliGraph) : Z :=
  int_of_uint (s_order g).

(** [Size] runs [EachEdge] with a step function that never terminates and
    captures nothing, then reads the counter.  [None]: the call panicked. *)
Definition stable_Size (g : stableBernoulliGraph) (r : RS)
  : option Z * stableBernoulliGraph * RS :=
  let w := stable_EachEdge (fun _ (a : unit) => (false, a))
             (mkRun g r tt false) in
  (if panicked w then None else Some (s_size (graph w)), graph w, source w).

(** *** The unstable generator

    A value receiver and no fields to change: a traversal only advances the
    random source and the caller's state. *)

Definition unstable_trial {A : Type} (t : bTrial RS) : bTrial (RS * A) :=
  fun rho w => let '(hit, r) := t rho (fst w) in (hit, (r, snd w)).

Definition unstable_el {A : Type} (f : EdgeLambda A) : EdgeLambda (RS * A) :=
  fun e w => let '(stop, a) := f e (snd w) in (stop, (fst w, a)).

Definition unstable_EachVertex {A : Type} (g : unstableBernoulliGraph)
  (f : VertexLambda A) (a : A) : A :=
  snd (for_range 0 (int_of_uint (u_order g)) f a).

Definition unstable_EachEdge {A : Type} (g : unstableBernoulliGraph)
  (f : EdgeLambda A) (w : RS * A) : RS * A :=
  if u_directed g then
    bernoulliArcCreator (unstable_el f) (int_of_uint (u_order g)) (u_rho g)
      (unstable_trial (u_trial g)) w
  else
    bernoulliEdgeCreator (unstable_el f) (int_of_uint (u_order g)) (u_rho g)
      (unstable_trial (u_trial g)) w.

Definition unstable_Order (g : unstableBernoulliGraph) : Z :=
  int_of_uint (u_order g).

Definition unstable_Size (g : unstableBernoulliGraph) : Z :=
  let cs := int_mul (int_of_uint (u_order g))
                    (int_sub (int_of_uint (u_order g)) 1) in
  let cs := if negb (u_directed g) then int_div cs 2 else cs in
  GoFloat.to_int (GoFloat.of_int cs * u_rho g)%float.

End Generators.

Arguments Returned {T} x.
Arguments Panicked {T}.
Arguments Stable {RS} g.
Arguments Unstable {RS} g.
Arguments s_order {RS}.
Arguments s_rho {RS}.
Arguments s_trial {RS}.
Arguments s_size {RS}.
Arguments s_directed {RS}.
Arguments s_list {RS}.
Arguments u_order {RS}.
Arguments u_rho {RS}.
Arguments u_trial {RS}.
Arguments u_directed {RS}.
Arguments with_list {RS}.
Arguments with_size {RS}.
Arguments panic {RS A}.
Arguments record_edge {RS}.
Arguments stable_ff {RS A}.
Arguments stable_trial {RS A}.
Arguments stable_replay {RS A}.
Arguments stable_EachEdge {RS A}.
Arguments stable_EachVertex {RS A}.
Arguments stable_Order {RS}.
Arguments stable_Size {RS}.
Arguments unstable_trial {RS A}.
Arguments unstable_el {RS A}.
Arguments unstable_EachVertex {RS A}.
Arguments unstable_EachEdge {RS A}.
Arguments unstable_Order {RS}.
Arguments unstable_Size {RS}.
Arguments mkStable {RS}.
Arguments mkUnstable {RS}.
Arguments mkRun {RS A} _ _ _ _.
Arguments graph {RS A} _.
Arguments source {RS A} _.
Arguments caller {RS A} _.
Arguments panicked {RS A} _.

End Bernoulli.

(** ** Reference descriptions

    What the specification says in words, as definitions of their own to
    compare the code with. *)

Module Reference.

Import Bernoulli.

(** Take the elements of [xs] once each, in order, until the body signals
    termination. *)
Fixpoint deliver {X St : Type} (xs : list X) (body : X -> St -> bool * St)
  (s : St) : bool * St :=
  match xs with
  | [] => (false, s)
  | x :: xs' =>
      let '(ret, s') := body x s in
      if ret then (true, s') else deliver xs' body s'
  end.

(** The unordered pairs over [0 .. order-1], each written once as [(u, v)]
    with [u < v], and the ordered pairs of two different vertices. *)
Definition pairs_lt (order : Z) : list (Z * Z) :=
  flat_map (fun u => map (pair u) (seqZ (u + 1) (order - (u + 1))))
           (seqZ 0 order).

Definition pairs_ne (order : Z) : list (Z * Z) :=
  flat_map (fun u => map (pair u) (filter (fun v => u ≠ v) (seqZ 0 order)))
           (seqZ 0 order).

Definition edge_of (c : Z * Z) : BaseEdge := {| U := fst c; V := snd c |}.

(** One independent trial for a candidate pair; the edge is handed to [el]
    iff the trial succeeds. *)
Definition trial_then_emit {St : Type} (el : EdgeLambda St) (rho : float)
  (cmp : bTrial St) : Z * Z -> St -> bool * St :=
  fun c s =>
    let '(hit, s1) := cmp rho s in
    if hit then el (edge_of c) s1 else (false, s1).

Definition run_candidates {St : Type} (cands : list (Z * Z))
  (el : EdgeLambda St) (rho : float) (cmp : bTrial St) (s : St) : bool * St :=
  deliver cands (trial_then_emit el rho cmp) s.

(** The candidates whose trial succeeds when all of [cands] are tried in
    order from source state [r], and the state the source is left in. *)
Fixpoint select {RS X : Type} (t : bTrial RS) (rho : float) (cands : list X)
  (r : RS) : list X * RS :=
  match cands with
  | [] => ([], r)
  | c :: cs =>
      let '(hit, r1) := t rho r in
      let '(sel, r2) := select t rho cs r1 in
      (if hit then c :: sel else sel, r2)
  end.

(** The candidate pairs of a generator of [order] vertices. *)
Definition candidates (directed : bool) (order : Z) : list (Z * Z) :=
  if directed then pairs_ne order else pairs_lt order.

(** The candidates whose trial succeeds in a complete first traversal from
    source state [r], and the source state afterwards. *)
Definition generated {RS : Type} (g : stableBernoulliGraph RS) (r : RS)
  : list (Z * Z) :=
  fst (select (s_trial g) (s_rho g)
              (candidates (s_directed g) (s_order g)) r).

Definition source_after {RS : Type} (g : stableBernoulliGraph RS) (r : RS)
  : RS :=
  snd (select (s_trial g) (s_rho g)
              (candidates (s_directed g) (s_order g)) r).

(** The pairs a replay walks through: every row that is not nil, with every
    index of that row. *)
Definition row_indices (r : row) : list Z :=
  match r with
  | None => []
  | Some cells => seqZ 0 (Z.of_nat (length cells))
  end.

Definition replay_pairs (l : list row) : list (Z * Z) :=
  flat_map (fun ur : Z * row => map (pair (fst ur)) (row_indices (snd ur)))
           (zip (seqZ 0 (Z.of_nat (length l))) l).

(** A step function that keeps every edge it is given and never
    terminates. *)
Definition collect : EdgeLambda (list BaseEdge) :=
  fun e acc => (false, acc ++ [e]).

(** One delivery of the replay: hand the edge to [f]. *)
Definition replay_step {RS A : Type} (f : EdgeLambda A) (c : Z * Z)
  (w : run RS A) : bool * run RS A :=
  let '(stop, a) := f (edge_of c) (caller w) in
  (stop, mkRun (graph w) (source w) a (panicked w)).

(** Where the log is when the step function of a stable traversal logs. *)
Definition run_log {RS A X : Type} (w : run RS (A * list (X * bool)))
  : list (X * bool) := snd (caller w).

(** Every call but the last answered "go on". *)
Definition stops_at_first_true {X : Type} (log : list (X * bool)) : Prop :=
  forall i x, log !! i = Some (x, true) -> S i = length log.

(** The log is somewhere in the state ([view]); every element stands for
    one loggable item ([tag]); and one round of the body either leaves the
    log alone or appends the item with the signal it returns. *)
Definition logs_at_most_once {X Y St : Type} (view : St -> list (Y * bool))
  (tag : X -> Y) (body : X -> St -> bool * St) : Prop :=
  forall x s,
    view (snd (body x s)) = view s \/
    view (snd (body x s)) = view s ++ [(tag x, fst (body x s))].

(** A log that a well-behaved enumeration of vertices leaves behind:
    nothing after the first "terminate", and no vertex twice. *)
Definition well_delivered {X : Type} (log : list (X * bool)) : Prop :=
  stops_at_first_true log /\ NoDup (delivered log).

(** The edge a delivered record stands for.  In a directed graph the
    record is the edge; in an undirected one [(u, v)] and [(v, u)] are the
    same edge. *)
Definition edge_key (directed : bool) (e : BaseEdge) : Z * Z :=
  if directed then (U e, V e)
  else (Z.min (U e) (V e), Z.max (U e) (V e)).

(** A log that a well-behaved enumeration of edges leaves behind: nothing
    after the first "terminate", and no edge twice. *)
Definition edges_well_delivered (directed : bool)
  (log : list (BaseEdge * bool)) : Prop :=
  stops_at_first_true log /\ NoDup (map (edge_key directed) (delivered log)).

(** A trial that also counts how often it is asked. *)
Definition counted {St : Type} (cmp : bTrial St) : bTrial (St * nat) :=
  fun rho s => let '(hit, s1) := cmp rho (fst s) in (hit, (s1, S (snd s))).

(** A closure lifted to a state with one more component that it does not
    touch. *)
Definition on_fst {X St B : Type} (f : X -> St -> bool * St)
  : X -> St * B -> bool * (St * B) :=
  fun x s => let '(b, s1) := f x (fst s) in (b, (s1, snd s)).

(** The rows of [l] after the edges [sel] have been recorded in a
    generator of [n] vertices: the row of every source vertex is allocated
    (and all its cells look alike). *)
Definition marked (n : Z) (l : list row) (sel : list (Z * Z)) : list row :=
  foldl (fun l c => <[Z.to_nat (fst c) := Some (replicate (Z.to_nat n) tt)]> l)
        l sel.

(** The counter after [k] executions of [g.size++]. *)
Definition count_up (z : Z) (k : nat) : Z :=
  Nat.iter k (fun z => GoInt.int_add z 1) z.

(** The generator [g] with table [l] and counter [z]. *)
Definition settled {RS : Type} (g : stableBernoulliGraph RS) (l : list row)
  (z : Z) : stableBernoulliGraph RS :=
  with_size (with_list g (Some l)) z.

(** A table as the first traversal builds it for [n] vertices. *)
Definition table_ok (n : Z) (l : list row) : Prop :=
  length l = Z.to_nat n /\
  forall (u : nat) cells, l !! u = Some (Some cells) ->
                          cells = replicate (Z.to_nat n) tt.

(** What a step function that never terminates has captured after it was
    given the edges of [sel]. *)
Definition fed {A : Type} (f : EdgeLambda A) (sel : list (Z * Z)) (a : A) : A :=
  foldl (fun a c => snd (f (edge_of c) a)) a sel.

(** A random source for examples: the numbers it will return, in order
    (and 0 once they are used up). *)
Definition scripted : Type := list float.

Definition scripted_Float64 (r : scripted) : float * scripted :=
  match r with
  | [] => (0%float, [])
  | x :: r' => (x, r')
  end.

(** A step function that captures nothing and never terminates. *)
Definition go_on {X : Type} : Step X unit := fun _ a => (false, a).

(** The expected number of edges, as a rational: the number of candidate
    pairs times ρ. *)
Definition expected_size (directed : bool) (n : Z) (rho : Q) : Q :=
  (inject_Z (if directed then n * (n - 1) else n * (n - 1) / 2) * rho)%Q.

End Reference.

(** ** Specs built through the fluent interface *)

Module Fluent.

Import Builder.

Definition all_methods : list method :=
  [MUndirected; MDirected; MBasic; MLabeled; MWeighted; MDataEdges;
   MSimpleGraph; MMultiGraph; MPseudoGraph; MParallel; MLoop;
   MMutable; MImmutable].

(** [Spec().m1().m2()...] *)
Definition build {GraphSource : Type} (ms : list method)
  : GraphSpec GraphSource :=
  foldl (fun b m => run m b) Spec ms.

(** What a method makes of a property value. *)
Definition step (m : method) (p : GraphProperties) : GraphProperties :=
  or_in (and_not p (cleared_by m)) (value_of m).

(** A property value in which every axis reads unambiguously: one
    direction; basic edges, or some of labeled, weighted and data; simple,
    or some of loops and parallel; mutable or immutable; and no bit beyond
    the ten-bit flags (in particular not the bit that only [G_PERSISTENT]
    carries). *)
Definition well_formed (p : GraphProperties) : bool :=
  (0 <=? p) && (p <? Z.shiftl 1 11) &&
  xorb (has_flag p G_UNDIRECTED) (has_flag p G_DIRECTED) &&
  eqb (has_flag p G_BASIC)
      (negb (has_flag p G_LABELED || has_flag p G_WEIGHTED || has_flag p G_DATA)) &&
  eqb (has_flag p G_SIMPLE)
      (negb (has_flag p G_LOOPS || has_flag p G_PARALLEL)) &&
  xorb (has_flag p G_MUTABLE) (has_flag p G_IMMUTABLE).

End Fluent.

(** ** The methods of the earlier builder revision as data *)

Module BuildGraphMethods.

Import BuildGraphRevision.

Inductive method : Type :=
| LUndirected | LDirected
| LBasicEdges | LLabeledEdges | LWeightedEdges | LDataEdges
| LSimpleGraph | LMultiGraph | LLoops.

Section Flags.

Variables G_UNDIRECTED G_DIRECTED G_LABELED G_WEIGHTED G_DATA
          G_LOOPS G_MULTI : Z.
Variable GraphSource : Type.

Definition run (m : method) : GraphSpec GraphSource -> GraphSpec GraphSource :=
  match m with
  | LUndirected => Undirected G_UNDIRECTED GraphSource
  | LDirected => Directed G_DIRECTED GraphSource
  | LBasicEdges => BasicEdges G_LABELED G_WEIGHTED G_DATA GraphSource
  | LLabeledEdges => LabeledEdges G_LABELED GraphSource
  | LWeightedEdges => WeightedEdges G_WEIGHTED GraphSource
  | LDataEdges => DataEdges G_DATA GraphSource
  | LSimpleGraph => SimpleGraph G_LOOPS G_MULTI GraphSource
  | LMultiGraph => MultiGraph G_MULTI GraphSource
  | LLoops => Loops G_LOOPS GraphSource
  end.

(** [BuildGraph().m1().m2()...] *)
Definition build (ms : list method) : GraphSpec GraphSource :=
  foldl (fun b m => run m b) (BuildGraph G_UNDIRECTED GraphSource) ms.

End Flags.

End BuildGraphMethods.

(** ** graph/al/graph_bench_test.go: the benchmark's graph source *)

Module Bench.

Import GoInt.

Section BenchGraph.

(** What the [P interface{}] of an edge may hold. *)
Variable Payload : Type.

(** [benchEdge]: "an edge type specifically for benchmarking that
    encompasses all edge types".  A [Vertex] is an interface value: nil, or
    (here) an [int]. *)
Record benchEdge : Type := mkBenchEdge {
  U : option Z;
  V : option Z;
  W : float;
  L : String.string;
  P : option Payload
}.

Definition Source (e : benchEdge) : option Z := U e.
Definition Target (e : benchEdge) : option Z := V e.
Definition Both (e : benchEdge) : option Z * option Z := (U e, V e).
Definition Weight (e : benchEdge) : float := W e.
Definition Label (e : benchEdge) : String.string := L e.
Definition Data (e : benchEdge) : option Payload := P e.

(** The zero value of [benchEdge], and [benchEdge{U: u, V: v}]. *)
Definition zero_edge : benchEdge :=
  {| U := None; V := None; W := 0%float; L := String.EmptyString; P := None |}.

Definition edge (u v : Z) : benchEdge :=
  {| U := Some u; V := Some v; W := 0%float; L := String.EmptyString;
     P := None |}.

(** [benchGraph].  A nil row and an empty row are the same to everything
    this file does with them ([range], [len], indexing), so a row is a
    plain list. *)
Record benchGraph : Type := mkBenchGraph {
  targetOrder : Z;
  targetDensity : float;
  maxDegree : Z;
  minDegree : Z;
  directed : bool;
  list_ : list (list benchEdge);
  size : Z
}.

(** The random source: its state, and [r.Intn(n)]. *)
Variable RS : Type.
Variable Intn : Z -> RS -> Z * RS.

(** The variables of the generator's loops. *)
Record filling : Type := mkFilling {
  f_list : list (list benchEdge);
  f_size : Z;
  f_rand : RS;
  f_panicked : bool
}.

Definition stop_panicking (st : filling) : bool * filling :=
  (true, mkFilling (f_list st) (f_size st) (f_rand st) true).

(** [list[u][v] = e] *)
Definition set_cell (l : list (list benchEdge)) (u v : Z) (e : benchEdge)
  : option (list (list benchEdge)) :=
  r ← Bernoulli.index l u;
  r' ← Bernoulli.store r v e;
  Bernoulli.store l u r'.

(** The body of the inner loop. *)
Definition fill_cell (edgeProbability : Z) (u v : Z) (st : filling)
  : bool * filling :=
  if negb (v =? u) then
    let '(x, r') := Intn 100 (f_rand st) in
    if x <=? edgeProbability then
      match set_cell (f_list st) u v (edge u v) with
      | None => stop_panicking st
      | Some l' => (false, mkFilling l' (int_add (f_size st) 1) r' (f_panicked st))
      end
    else (false, mkFilling (f_list st) (f_size st) r' (f_panicked st))
  else (false, st).

(** The body of the outer loop. *)
Definition fill_row (vertexCount edgeProbability : Z) (u : Z) (st : filling)
  : bool * filling :=
  match Bernoulli.make zero_edge vertexCount with
  | None => stop_panicking st
  | Some row =>
      match Bernoulli.store (f_list st) u row with
      | None => stop_panicking st
      | Some l' =>
          for_range 0 (int_of_uint vertexCount)
            (fill_cell edgeProbability u)
            (mkFilling l' (f_size st) (f_rand st) (f_panicked st))
      end
  end.

(** [src] is the source handed in, if any; [clock] is the source seeded
    from the time of day that is used otherwise.  The result is the graph
    and the state the source is left in. *)
Definition bernoulliDistributionGenerator (vertexCount : Z)
  (edgeProbability : Z) (src : option RS) (clock : RS)
  : Bernoulli.outcome (benchGraph * RS) :=
  if (100 <? edgeProbability) || (edgeProbability <? 1) then Bernoulli.Panicked
  else
    let r := match src with None => clock | Some s => s end in
    match Bernoulli.make ([] : list benchEdge) vertexCount with
    | None => Bernoulli.Panicked
    | Some l =>
        let st := snd (for_range 0 (int_of_uint vertexCount)
                         (fill_row vertexCount edgeProbability)
                         (mkFilling l 0 r false)) in
        if f_panicked st then Bernoulli.Panicked
        else Bernoulli.Returned
               ({| targetOrder := vertexCount; targetDensity := 0%float;
                   maxDegree := 0; minDegree := 0; directed := true;
                   list_ := f_list st; size := f_size st |},
                f_rand st)
    end.

Definition Vertices {St : Type} (g : benchGraph) (f : Step Z St) (s : St) : St :=
  snd (range_loop (list_ g) (fun v _ s => f v s) s).

Definition Edges {St : Type} (g : benchGraph) (f : Step benchEdge St) (s : St)
  : St :=
  snd (range_loop (list_ g) (fun _ adj s =>
         range_loop adj (fun _ e s => f e s) s) s).

Definition Size (g : benchGraph) : Z := size g.

(** [len(g.list)] *)
Definition Order (g : benchGraph) : Z := Z.of_nat (length (list_ g)).

End BenchGraph.

Arguments zero_edge {Payload}.
Arguments edge {Payload} u v.
Arguments U {Payload} _.
Arguments V {Payload} _.
Arguments list_ {Payload} _.
Arguments size {Payload} _.
Arguments Vertices {Payload St} g f s.
Arguments Edges {Payload St} g f s.
Arguments Size {Payload} g.
Arguments Order {Payload} g.
Arguments f_list {Payload RS} _.
Arguments f_size {Payload RS} _.
Arguments f_rand {Payload RS} _.
Arguments f_panicked {Payload RS} _.
Arguments mkFilling {Payload RS} _ _ _ _.
Arguments set_cell {Payload} l u v e.
Arguments fill_cell {Payload RS} Intn edgeProbability u v st.
Arguments fill_row {Payload RS} Intn vertexCount edgeProbability u st.

(** *** What the generator is expected to leave behind *)

(** The trial of the generator: one draw below 100, a success when it is
    at most the edge probability. *)
Definition draw {RS : Type} (Intn : Z -> RS -> Z * RS) (edgeProbability : Z)
  : Bernoulli.bTrial RS :=
  fun _ r => let '(x, r') := Intn 100 r in (x <=? edgeProbability, r').

(** The ordered pairs whose draw succeeds, in the order of the loops. *)
Definition hits {RS : Type} (Intn : Z -> RS -> Z * RS) (n p : Z) (r : RS)
  : list (Z * Z) :=
  fst (Reference.select (draw Intn p) 0%float (Reference.pairs_ne n) r).

Definition rand_after {RS : Type} (Intn : Z -> RS -> Z * RS) (n p : Z) (r : RS)
  : RS :=
  snd (Reference.select (draw Intn p) 0%float (Reference.pairs_ne n) r).

(** Row [u] of a table of [n] vertices in which exactly the pairs of [hs]
    are set. *)
Definition row_of {Payload : Type} (n u : Z) (hs : list (Z * Z))
  : list (benchEdge Payload) :=
  map (fun v => if decide ((u, v) ∈ hs) then edge u v else zero_edge)
      (seqZ 0 n).

Definition table_of {Payload : Type} (n : Z) (hs : list (Z * Z))
  : list (list (benchEdge Payload)) :=
  map (fun u => row_of n u hs) (seqZ 0 n).

(** The cells of row [u] that the draws of [hs] set. *)
Definition set_all {Payload : Type} (u : Z) (rw : list (benchEdge Payload))
  (hs : list (Z * Z)) : list (benchEdge Payload) :=
  foldl (fun rw c => <[Z.to_nat (snd c) := edge u (snd c)]> rw) rw hs.

(** The candidates of row [u] among the columns [vs]. *)
Definition row_cands (u : Z) (vs : list Z) : list (Z * Z) :=
  map (pair u) (filter (fun v => u ≠ v) vs).

(** A random source for examples: the numbers [Intn] will return, in order
    (and 0 once they are used up). *)
Definition scripted_Intn (_ : Z) (r : list Z) : Z * list Z :=
  match r with
  | [] => (0, [])
  | x :: r' => (x, r')
  end.

(** A step function that keeps every edge it is given and never
    terminates. *)
Definition keep {Payload : Type} : Step (benchEdge Payload) (list (benchEdge Payload)) :=
  fun e acc => (false, acc ++ [e]).

End Bench.

(** * Proofs *)

(** ** Machine integers *)

Section GoIntFacts.

Import GoInt.

Lemma wrap_int_small z : is_int z -> wrap_int z = z.
Proof.
  unfold is_int, min_int, max_int, wrap_int. intros H.
  rewrite Z.mod_small; lia.
Qed.

Lemma wrap_int_range z : is_int (wrap_int z).
Proof.
  unfold is_int, min_int, max_int, wrap_int.
  pose proof (Z.mod_pos_bound (z + 2 ^ 63) (2 ^ 64) ltac:(lia)). lia.
Qed.

Lemma wrap_int_idem z : wrap_int (wrap_int z) = wrap_int z.
Proof. apply wrap_int_small, wrap_int_range. Qed.

Lemma wrap_int_succ z : wrap_int (wrap_int z + 1) = wrap_int (z + 1).
Proof.
  unfold wrap_int.
  replace ((z + 2 ^ 63) mod 2 ^ 64 - 2 ^ 63 + 1 + 2 ^ 63)
    with ((z + 2 ^ 63) mod 2 ^ 64 + 1) by lia.
  replace (z + 1 + 2 ^ 63) with ((z + 2 ^ 63) + 1) by lia.
  rewrite (Z.add_mod (z + 2 ^ 63) 1) by lia.
  rewrite (Z.add_mod ((z + 2 ^ 63) mod 2 ^ 64) 1) by lia.
  rewrite Z.mod_mod by lia. reflexivity.
Qed.

Lemma int_of_uint_small x : 0 <= x <= max_int -> int_of_uint x = x.
Proof.
  intros H. apply wrap_int_small. unfold is_int, min_int, max_int in *. lia.
Qed.

Lemma int_of_uint_large x :
  max_int < x <= max_uint -> int_of_uint x = x - 2 ^ 64.
Proof.
  unfold int_of_uint, wrap_int, max_int, max_uint. intros H.
  replace (x + 2 ^ 63) with ((x - 2 ^ 63) + 1 * 2 ^ 64) by lia.
  rewrite Z.mod_add by lia. rewrite Z.mod_small; lia.
Qed.

End GoIntFacts.

(** ** The builder *)

Section BuilderFacts.

Import Builder.

Variable GraphSource : Type.

Abbreviation GraphSpec := (GraphSpec GraphSource).

(** Every method is one [&^=] followed by one [|=]. *)
Lemma Props_run (m : method) (b : GraphSpec) :
  Props (run m b) = Z.lor (Z.ldiff (Props b) (cleared_by m)) (value_of m).
Proof. destruct m; reflexivity. Qed.

Lemma Source_run (m : method) (b : GraphSpec) : Source (run m b) = Source b.
Proof. destruct m; reflexivity. Qed.

(** Two clear-then-set steps followed by a mask act on every bit of [p]
    alone, so the result is decided by the all-zeros and all-ones inputs. *)
Lemma two_steps_bitwise (p c1 v1 c2 v2 mask k : Z) :
  Z.land (Z.lor (Z.ldiff (Z.lor (Z.ldiff 0 c1) v1) c2) v2) mask = k ->
  Z.land (Z.lor (Z.ldiff (Z.lor (Z.ldiff (-1) c1) v1) c2) v2) mask = k ->
  Z.land (Z.lor (Z.ldiff (Z.lor (Z.ldiff p c1) v1) c2) v2) mask = k.
Proof.
  intros H0 H1. apply Z.bits_inj'. intros n Hn.
  apply (f_equal (fun z => Z.testbit z n)) in H0, H1.
  rewrite Z.land_spec, Z.lor_spec, Z.ldiff_spec, Z.lor_spec, Z.ldiff_spec
    in H0, H1 |- *.
  rewrite Z.bits_0 in H0. rewrite Z.bits_m1 in H1 by assumption.
  destruct (Z.testbit p n); assumption.
Qed.

Lemma is_uint16_bits (x : Z) :
  is_uint16 x <-> 0 <= x /\ forall n, 16 <= n -> Z.testbit x n = false.
Proof.
  unfold is_uint16. split.
  - intros H. split; [lia|]. intros n Hn.
    rewrite <- (Z.mod_small x (2 ^ 16)) by lia.
    apply Z.mod_pow2_bits_high. lia.
  - intros [H0 Hhi]. split; [assumption|].
    assert (E : x mod 2 ^ 16 = x).
    { apply Z.bits_inj'. intros n Hn.
      destruct (Z_lt_ge_dec n 16) as [Hlt|Hge].
      - apply Z.mod_pow2_bits_low. assumption.
      - rewrite Z.mod_pow2_bits_high by lia. symmetry. apply Hhi. lia. }
    rewrite <- E. apply Z.mod_pos_bound. lia.
Qed.

(** [&^=] and [|=] with the declared constants keep a [uint16] a [uint16]:
    no method needs a wrap-around. *)
Lemma is_uint16_run (m : method) (b : GraphSpec) :
  is_uint16 (Props b) -> is_uint16 (Props (run m b)).
Proof.
  rewrite !is_uint16_bits. intros [Hlo Hhi]. rewrite Props_run.
  assert (Hv : is_uint16 (value_of m))
    by (destruct m; vm_compute; intuition congruence).
  apply is_uint16_bits in Hv. destruct Hv as [Hv0 Hvhi].
  split.
  - apply Z.lor_nonneg. split; [|assumption].
    apply Z.ldiff_nonneg. left. assumption.
  - intros n Hn. rewrite Z.lor_spec, Z.ldiff_spec.
    rewrite Hhi, Hvhi by assumption. reflexivity.
Qed.

Lemma overrides_sound (first second : method) :
  overrides first second = true -> last_write_wins GraphSource first second.
Proof.
  intros Hov b _. rewrite !Props_run. unfold active_on.
  destruct first, second; try discriminate Hov;
    apply two_steps_bitwise; reflexivity.
Qed.

Lemma overrides_complete (first second : method) :
  last_write_wins GraphSource first second -> overrides first second = true.
Proof.
  intros H. specialize (H all_set ltac:(unfold is_uint16; simpl; lia)).
  destruct first, second; try reflexivity; vm_compute in H; discriminate H.
Qed.

(** C7 (amended): on four axes the builder is "last write wins" exactly for
    the pairs of methods listed by [overrides]: after [first] then
    [second], the value of [second] alone is active on its axis iff
    [second] is one of Undirected, Directed, Basic, SimpleGraph,
    MultiGraph, PseudoGraph, Mutable, Immutable, or [second] is Labeled,
    Weighted or DataEdges and [first] is Basic, or [second] is Parallel and
    [first] is SimpleGraph or MultiGraph, or [second] is Loop and [first]
    is SimpleGraph. *)
Theorem C7_last_write_wins_iff_overrides (first second : method) :
  last_write_wins GraphSource first second <-> overrides first second = true.
Proof. split; [apply overrides_complete | apply overrides_sound]. Qed.

(** C8: the spec returned by [Spec()] has the undirected, simple, basic and
    mutable flags active, none of the other eight named flags, and a nil
    source. *)
Theorem C8_default_spec :
  let p := Props (@Spec GraphSource) in
  (has_flag p G_UNDIRECTED = true /\ has_flag p G_SIMPLE = true /\
   has_flag p G_BASIC = true /\ has_flag p G_MUTABLE = true) /\
  (has_flag p G_DIRECTED = false /\ has_flag p G_LABELED = false /\
   has_flag p G_WEIGHTED = false /\ has_flag p G_DATA = false /\
   has_flag p G_LOOPS = false /\ has_flag p G_PARALLEL = false /\
   has_flag p G_IMMUTABLE = false /\ has_flag p G_PERSISTENT = false) /\
  p = Z.lor (Z.lor (Z.lor G_UNDIRECTED G_SIMPLE) G_BASIC) G_MUTABLE /\
  Source (@Spec GraphSource) = None.
Proof. vm_compute. intuition reflexivity. Qed.

End BuilderFacts.

(** C7 as the specification states it fails: [Labeled] and [Weighted] are
    two values of the richness axis, and after [Spec().Labeled().Weighted()]
    the first is still active next to the second. *)
Lemma C7_labeled_survives_weighted :
  let p := Builder.Props
             (Builder.Weighted unit (Builder.Labeled unit Builder.Spec)) in
  Builder.axis_of Builder.MLabeled = Builder.axis_of Builder.MWeighted /\
  Builder.has_flag p Builder.G_WEIGHTED = true /\
  Builder.has_flag p Builder.G_LABELED = true /\
  Builder.active_on Builder.Richness p
    = Z.lor Builder.G_LABELED Builder.G_WEIGHTED /\
  Builder.active_on Builder.Richness p <> Builder.G_WEIGHTED.
Proof. vm_compute. intuition congruence. Qed.

(** ** The earlier revision of the builder *)

Section BuildGraphRevisionFacts.

Import BuildGraphRevision.

Variables G_UNDIRECTED G_DIRECTED : Z.
Variable GraphSource : Type.

(** [BuildGraph()] switches on the undirected flag and nothing else. *)
Lemma BuildGraph_props :
  Props GraphSource (BuildGraph G_UNDIRECTED GraphSource) = G_UNDIRECTED /\
  Source GraphSource (BuildGraph G_UNDIRECTED GraphSource) = None.
Proof. split; reflexivity. Qed.

(** In that revision [Directed] and [Undirected] only add their flag:
    after [Directed()] then [Undirected()] both are set. *)
Lemma legacy_directedness_accumulates (b : GraphSpec GraphSource) :
  let p := Props _ (Undirected G_UNDIRECTED _ (Directed G_DIRECTED _ b)) in
  Z.land p G_DIRECTED = G_DIRECTED /\ Z.land p G_UNDIRECTED = G_UNDIRECTED.
Proof.
  simpl. split; apply Z.bits_inj'; intros n Hn;
    rewrite Z.land_spec, !Z.lor_spec;
    destruct (Z.testbit (Props _ b) n), (Z.testbit G_DIRECTED n),
      (Z.testbit G_UNDIRECTED n); reflexivity.
Qed.

End BuildGraphRevisionFacts.

(** ** The null graph *)

Section NullGraphFacts.

Import Null.

Variables Vertex Edge Arc WeightedEdge LabeledEdge DataEdge : Type.

(** C6: on the null graph no enumeration ever calls its step function
    (with a logging step function the log stays empty and the caller's
    state is untouched), every membership test is false, every degree
    query is [(0, false)], the density is NaN and the transpose is the
    graph itself. *)
Theorem C6_null_graph (g : nullGraph) :
  (forall (St : Type) (s : St) (v : Vertex)
          (fv : Step Vertex St) (fe : Step Edge St) (fa : Step Arc St),
      Vertices Vertex g (logged fv) (s, []) = (s, []) /\
      Edges Edge g (logged fe) (s, []) = (s, []) /\
      Arcs Arc g (logged fa) (s, []) = (s, []) /\
      IncidentTo Vertex Edge g v (logged fe) (s, []) = (s, []) /\
      ArcsFrom Vertex Arc g v (logged fa) (s, []) = (s, []) /\
      ArcsTo Vertex Arc g v (logged fa) (s, []) = (s, []) /\
      PredecessorsOf Vertex g v (logged fv) (s, []) = (s, []) /\
      SuccessorsOf Vertex g v (logged fv) (s, []) = (s, []) /\
      AdjacentTo Vertex g v (logged fv) (s, []) = (s, [])) /\
  (forall (v : Vertex) (e : Edge) (a : Arc) (we : WeightedEdge)
          (le : LabeledEdge) (de : DataEdge),
      HasVertex Vertex g v = false /\ HasEdge Edge g e = false /\
      HasArc Arc g a = false /\ HasWeightedEdge WeightedEdge g we = false /\
      HasLabeledEdge LabeledEdge g le = false /\
      HasDataEdge DataEdge g de = false) /\
  (forall v : Vertex,
      DegreeOf Vertex g v = (0, false) /\ InDegreeOf Vertex g v = (0, false) /\
      OutDegreeOf Vertex g v = (0, false)) /\
  PrimFloat.is_nan (Density g) = true /\
  Transpose g = g.
Proof.
  repeat split.
Qed.

End NullGraphFacts.

(** ** Comparisons of binary64 numbers *)

Section FloatOrder.

Lemma SFcompare_antisym (x y : spec_float) :
  SFcompare y x = option_map CompOpp (SFcompare x y).
Proof.
  destruct x as [sx|sx| |sx mx ex], y as [sy|sy| |sy my ey]; simpl;
    try reflexivity;
    try (destruct sx; reflexivity); try (destruct sy; reflexivity);
    try (destruct sx, sy; reflexivity).
  destruct sx, sy; simpl; try reflexivity;
    rewrite (Z.compare_antisym ex ey);
    destruct (ex ?= ey); simpl; try reflexivity;
    rewrite (Pos.compare_cont_antisym mx my Eq); simpl;
    try rewrite CompOpp_involutive; reflexivity.
Qed.

Lemma float_ltb_not_geb (x y : float) :
  (x <? y)%float = true -> (y <=? x)%float = false.
Proof.
  rewrite ltb_spec, leb_spec. unfold SFltb, SFleb.
  rewrite (SFcompare_antisym (Prim2SF x) (Prim2SF y)).
  destruct (SFcompare (Prim2SF x) (Prim2SF y)) as [[]|]; simpl; congruence.
Qed.

Lemma float_leb_not_gtb (x y : float) :
  (x <=? y)%float = true -> (y <? x)%float = false.
Proof.
  rewrite ltb_spec, leb_spec. unfold SFltb, SFleb.
  rewrite (SFcompare_antisym (Prim2SF x) (Prim2SF y)).
  destruct (SFcompare (Prim2SF x) (Prim2SF y)) as [[]|]; simpl; congruence.
Qed.

End FloatOrder.

(** ** BernoulliDistribution *)

Section ConstructorFacts.

Import Bernoulli.

Variable RS : Type.
Variable Float64 : RS -> float * RS.

(** C3: whatever the order, the flags and the source, construction panics
    iff ρ < 0.0 or ρ >= 1.0 in binary64 comparison; in particular it panics
    for ρ = 1.0 and ρ = -0.1 (the binary64 nearest to it, written in
    hexadecimal below), and it returns a generator for every ρ with
    0 <= ρ < 1. *)
Theorem C3_panics_iff_rho_out_of_range
  (n : Z) (rho : float) (directed stable : bool) (src : option RS) :
  (BernoulliDistribution RS Float64 n rho directed stable src = Panicked
   <-> ((rho <? 0)%float = true \/ (1 <=? rho)%float = true)) /\
  BernoulliDistribution RS Float64 n 1%float directed stable src = Panicked /\
  BernoulliDistribution RS Float64 n (-0x1.999999999999ap-4)%float directed stable src
    = Panicked /\
  (((0 <=? rho)%float = true /\ (rho <? 1)%float = true) ->
   exists g, BernoulliDistribution RS Float64 n rho directed stable src
             = Returned g).
Proof.
  unfold BernoulliDistribution. repeat split.
  - destruct ((rho <? 0)%float) eqn:E0; [auto|].
    destruct ((1 <=? rho)%float) eqn:E1; [auto|].
    simpl. destruct stable; discriminate.
  - intros [E|E]; rewrite E; [reflexivity|].
    rewrite orb_true_r. reflexivity.
  - intros [Hlo Hhi].
    rewrite (float_leb_not_gtb _ _ Hlo), (float_ltb_not_geb _ _ Hhi). simpl.
    destruct stable; eexists; reflexivity.
Qed.

End ConstructorFacts.

(** ** Loops as deliveries over a list *)

Section LoopFacts.

Import Reference.

Context {St : Type}.

Lemma deliver_ext {X : Type} (xs : list X) (b1 b2 : X -> St -> bool * St) s :
  (forall x s, b1 x s = b2 x s) -> deliver xs b1 s = deliver xs b2 s.
Proof.
  intros E. revert s. induction xs as [|x xs IH]; intros s; simpl.
  - reflexivity.
  - rewrite E. destruct (b2 x s) as [[] s']; [reflexivity | apply IH].
Qed.

Lemma deliver_app {X : Type} (xs ys : list X) (body : X -> St -> bool * St) s :
  deliver (xs ++ ys) body s =
  (let '(ret, s') := deliver xs body s in
   if ret then (true, s') else deliver ys body s').
Proof.
  revert s. induction xs as [|x xs IH]; intros s; simpl.
  - reflexivity.
  - destruct (body x s) as [[] s']; [reflexivity | apply IH].
Qed.

Lemma deliver_flat_map {X Y : Type} (g : X -> list Y) (xs : list X)
  (body : Y -> St -> bool * St) s :
  deliver (flat_map g xs) body s
  = deliver xs (fun x s => deliver (g x) body s) s.
Proof.
  revert s. induction xs as [|x xs IH]; intros s; simpl.
  - reflexivity.
  - rewrite deliver_app.
    destruct (deliver (g x) body s) as [[] s']; [reflexivity | apply IH].
Qed.

Lemma deliver_map {X Y : Type} (h : X -> Y) (xs : list X)
  (body : Y -> St -> bool * St) s :
  deliver (map h xs) body s = deliver xs (fun x => body (h x)) s.
Proof.
  revert s. induction xs as [|x xs IH]; intros s; simpl.
  - reflexivity.
  - destruct (body (h x) s) as [[] s']; [reflexivity | apply IH].
Qed.

Lemma deliver_filter {X : Type} (P : X -> Prop) `{!forall x, Decision (P x)}
  (xs : list X) (body : X -> St -> bool * St) s :
  deliver (filter P xs) body s
  = deliver xs (fun x s => if decide (P x) then body x s else (false, s)) s.
Proof.
  revert s. induction xs as [|x xs IH]; intros s.
  - reflexivity.
  - rewrite filter_cons. simpl. destruct (decide (P x)); simpl.
    + destruct (body x s) as [[] s']; [reflexivity | apply IH].
    + apply IH.
Qed.

Lemma for_steps_deliver (n : nat) (i : Z) (body : Z -> St -> bool * St) s :
  for_steps n i body s = deliver (seqZ i (Z.of_nat n)) body s.
Proof.
  revert i s. induction n as [|n IH]; intros i s.
  - reflexivity.
  - rewrite seqZ_cons by lia. simpl for_steps. simpl deliver.
    destruct (body i s) as [[] s']; [reflexivity|].
    rewrite IH. f_equal. f_equal; lia.
Qed.

Lemma for_range_deliver (lo hi : Z) (body : Z -> St -> bool * St) s :
  for_range lo hi body s = deliver (seqZ lo (hi - lo)) body s.
Proof.
  unfold for_range. rewrite for_steps_deliver.
  unfold seqZ. rewrite Nat2Z.id. reflexivity.
Qed.

Lemma range_from_deliver {T : Type} (l : list T) (i : Z)
  (body : Z -> T -> St -> bool * St) s :
  range_from l i body s
  = deliver (zip (seqZ i (Z.of_nat (length l))) l)
            (fun it s => body (fst it) (snd it) s) s.
Proof.
  revert i s. induction l as [|x l IH]; intros i s.
  - reflexivity.
  - simpl length. rewrite seqZ_cons by lia. simpl.
    destruct (body i x s) as [[] s']; [reflexivity|].
    rewrite IH. f_equal. f_equal. f_equal; lia.
Qed.

End LoopFacts.

(** ** The candidate pairs *)

Section PairFacts.

Import Reference.

Lemma elem_of_flat_map_keyed {X : Type} (key : X -> Z) (g : X -> list Z)
  (xs : list X) (u v : Z) :
  (u, v) ∈ flat_map (fun x => map (pair (key x)) (g x)) xs
  <-> exists x, x ∈ xs /\ key x = u /\ v ∈ g x.
Proof.
  rewrite list_elem_of_In, in_flat_map. split.
  - intros (x & Hx & Hin). apply in_map_iff in Hin.
    destruct Hin as (y & Heq & Hy). injection Heq as <- ->.
    exists x. rewrite !list_elem_of_In. auto.
  - intros (x & Hx & <- & Hv). exists x. rewrite <- !list_elem_of_In.
    split; [assumption|]. apply list_elem_of_fmap. eauto.
Qed.

Lemma NoDup_flat_map_keyed {X : Type} (key : X -> Z) (g : X -> list Z)
  (xs : list X) :
  NoDup (map key xs) -> (forall x, NoDup (g x)) ->
  NoDup (flat_map (fun x => map (pair (key x)) (g x)) xs).
Proof.
  intros Hxs Hg. induction xs as [|x xs IH]; simpl.
  - constructor.
  - simpl in Hxs. apply NoDup_cons in Hxs. destruct Hxs as [Hx Hxs].
    apply NoDup_app. split; [|split].
    + apply NoDup_fmap_2; [|apply Hg]. intros a b E. congruence.
    + intros [u v] Hin Hin'.
      apply list_elem_of_fmap in Hin. destruct Hin as (y & Heq & _).
      injection Heq as -> ->.
      apply elem_of_flat_map_keyed in Hin'.
      destruct Hin' as (x' & Hx' & Hk & _).
      apply Hx. rewrite <- Hk. apply list_elem_of_fmap. eauto.
    + apply IH. exact Hxs.
Qed.

Lemma elem_of_flat_map_pairs (g : Z -> list Z) (xs : list Z) (u v : Z) :
  (u, v) ∈ flat_map (fun u => map (pair u) (g u)) xs <-> u ∈ xs /\ v ∈ g u.
Proof.
  rewrite (elem_of_flat_map_keyed (fun u => u) g). split.
  - intros (x & Hx & -> & Hv). auto.
  - intros [Hu Hv]. eauto.
Qed.

Lemma NoDup_flat_map_pairs (g : Z -> list Z) (xs : list Z) :
  NoDup xs -> (forall u, NoDup (g u)) ->
  NoDup (flat_map (fun u => map (pair u) (g u)) xs).
Proof.
  intros Hxs Hg. apply (NoDup_flat_map_keyed (fun u => u) g); [|exact Hg].
  rewrite map_id. exact Hxs.
Qed.

Lemma elem_of_pairs_lt (order u v : Z) :
  (u, v) ∈ pairs_lt order <-> 0 <= u /\ u < v /\ v < order.
Proof.
  unfold pairs_lt. rewrite elem_of_flat_map_pairs, !elem_of_seqZ. lia.
Qed.

Lemma elem_of_pairs_ne (order u v : Z) :
  (u, v) ∈ pairs_ne order <->
  0 <= u < order /\ 0 <= v < order /\ u <> v.
Proof.
  unfold pairs_ne.
  rewrite elem_of_flat_map_pairs, list_elem_of_filter, !elem_of_seqZ. lia.
Qed.

Lemma NoDup_pairs_lt (order : Z) : NoDup (pairs_lt order).
Proof.
  apply NoDup_flat_map_pairs; [apply NoDup_seqZ|]. intros u. apply NoDup_seqZ.
Qed.

Lemma NoDup_pairs_ne (order : Z) : NoDup (pairs_ne order).
Proof.
  apply NoDup_flat_map_pairs; [apply NoDup_seqZ|]. intros u.
  apply NoDup_filter, NoDup_seqZ.
Qed.

Lemma length_flat_map_const {X Y : Type} (g : X -> list Y) (xs : list X) (k : nat) :
  (forall x, x ∈ xs -> length (g x) = k) ->
  length (flat_map g xs) = (length xs * k)%nat.
Proof.
  induction xs as [|x xs IH]; intros H; simpl.
  - reflexivity.
  - rewrite length_app, H by left. rewrite IH; [reflexivity|].
    intros y Hy. apply H. right. exact Hy.
Qed.

End PairFacts.

(** ** The edge creators *)

Section CreatorFacts.

Import Bernoulli Reference.

Context {St : Type}.

Lemma bernoulliEdgeCreator_run (el : EdgeLambda St) (order : Z) (rho : float)
  (cmp : bTrial St) (s : St) :
  bernoulliEdgeCreator el order rho cmp s
  = snd (run_candidates (pairs_lt order) el rho cmp s).
Proof.
  unfold bernoulliEdgeCreator, run_candidates, pairs_lt.
  rewrite for_range_deliver, Z.sub_0_r, deliver_flat_map. f_equal.
  apply deliver_ext. intros u s'.
  rewrite for_range_deliver, deliver_map. reflexivity.
Qed.

Lemma bernoulliArcCreator_run (el : EdgeLambda St) (order : Z) (rho : float)
  (cmp : bTrial St) (s : St) :
  bernoulliArcCreator el order rho cmp s
  = snd (run_candidates (pairs_ne order) el rho cmp s).
Proof.
  unfold bernoulliArcCreator, run_candidates, pairs_ne.
  rewrite for_range_deliver, Z.sub_0_r, deliver_flat_map. f_equal.
  apply deliver_ext. intros u s'.
  rewrite for_range_deliver, Z.sub_0_r, deliver_map, deliver_filter.
  apply deliver_ext. intros v s''.
  destruct (decide (u ≠ v)) as [Hne|Heq].
  - apply Z.eqb_neq in Hne. rewrite Hne. reflexivity.
  - assert (u = v) as -> by lia. rewrite Z.eqb_refl. reflexivity.
Qed.

End CreatorFacts.

(** ** What a delivery writes to the log *)

Section LogFacts.

Import Reference.

Context {X Y St : Type}.

Variable view : St -> list (Y * bool).
Variable tag : X -> Y.
Variable body : X -> St -> bool * St.

Hypothesis body_logs : logs_at_most_once view tag body.

Lemma deliver_log (xs : list X) (s : St) :
  exists new,
    view (snd (deliver xs body s)) = view s ++ new /\
    sublist (map fst new) (map tag xs) /\
    stops_at_first_true new /\
    (fst (deliver xs body s) = false -> Forall (fun e => snd e = false) new).
Proof.
  revert s. induction xs as [|x xs IH]; intros s.
  - exists []. simpl. rewrite app_nil_r. repeat split.
    + constructor.
    + intros i y H. discriminate H.
    + constructor.
  - simpl. pose proof (body_logs x s) as Hb.
    destruct (body x s) as [t s1] eqn:Eb. simpl in Hb. destruct t.
    + destruct Hb as [Hb|Hb]; simpl; rewrite Hb.
      * exists []. rewrite app_nil_r. repeat split.
        -- apply sublist_nil_l.
        -- intros i y H. discriminate H.
        -- intros H. discriminate H.
      * exists [(tag x, true)]. repeat split.
        -- apply sublist_skip, sublist_nil_l.
        -- intros [|i] y H; [reflexivity | discriminate H].
        -- intros H. discriminate H.
    + destruct (IH s1) as (new & Hv & Hsub & Hstop & Hall).
      destruct Hb as [Hb|Hb]; rewrite Hv, Hb.
      * exists new. repeat split; try assumption.
        apply sublist_cons. assumption.
      * exists ((tag x, false) :: new). rewrite <- app_assoc.
        repeat split.
        -- simpl. apply sublist_skip. assumption.
        -- intros [|i] y H; [discriminate H|].
           simpl in H. apply Hstop in H. simpl. lia.
        -- intros H. constructor; [reflexivity | auto].
Qed.

Lemma deliver_log_from_empty (xs : list X) (s : St) :
  view s = [] -> NoDup (map tag xs) ->
  let log := view (snd (deliver xs body s)) in
  stops_at_first_true log /\ NoDup (delivered log) /\
  (forall y, y ∈ delivered log -> y ∈ map tag xs).
Proof.
  intros Hs Hnd. destruct (deliver_log xs s) as (new & Hv & Hsub & Hstop & _).
  simpl. rewrite Hv, Hs. simpl. repeat split.
  - assumption.
  - eapply sublist_NoDup; eassumption.
  - intros y Hy. eapply elem_of_sublist; eassumption.
Qed.

End LogFacts.

Section LoggedFacts.

Import Reference.

Context {X St : Type}.

Lemma logged_logs (f : Step X St) :
  logs_at_most_once (fun s : St * list (X * bool) => snd s) (fun x => x) (logged f).
Proof.
  intros x s. right. unfold logged. destruct (f x (fst s)); reflexivity.
Qed.

(** With a step function that never terminates everything is delivered. *)
Lemma deliver_logged_all (f : Step X St) (xs : list X) (a : St)
  (log : list (X * bool)) :
  (forall x a, fst (f x a) = false) ->
  fst (deliver xs (logged f) (a, log)) = false /\
  snd (snd (deliver xs (logged f) (a, log)))
  = log ++ map (fun x => (x, false)) xs.
Proof.
  intros Hf. revert a log. induction xs as [|x xs IH]; intros a log; simpl.
  - rewrite app_nil_r. auto.
  - unfold logged at 1 3. simpl. specialize (Hf x a).
    destruct (f x a) as [t a']. simpl in Hf. subst t.
    destruct (IH a' (log ++ [(x, false)])) as [H1 H2].
    rewrite H1, H2, <- app_assoc. auto.
Qed.

End LoggedFacts.

(** ** C4: the pairs a creator considers *)

Section CandidateFacts.

Import Bernoulli Reference.

Context {St : Type}.

Lemma edge_of_inj : Inj (=) (=) edge_of.
Proof. intros [u v] [u' v'] E. injection E as -> ->. reflexivity. Qed.

Lemma NoDup_edges (cands : list (Z * Z)) :
  NoDup cands -> NoDup (map edge_of cands).
Proof. intros H. apply NoDup_fmap_2; [apply edge_of_inj | exact H]. Qed.

Lemma elem_of_edges (cands : list (Z * Z)) (e : BaseEdge) :
  e ∈ map edge_of cands <-> (U e, V e) ∈ cands.
Proof.
  rewrite list_elem_of_fmap. split.
  - intros ([u v] & -> & Hin). exact Hin.
  - intros Hin. exists (U e, V e). destruct e; auto.
Qed.

(** A trial leaves the log alone and an emission appends to it. *)
Lemma trial_then_emit_logs (el : EdgeLambda St) (rho : float) (cmp : bTrial St) :
  logs_at_most_once (fun s : St * list (BaseEdge * bool) => snd s) edge_of
    (trial_then_emit (logged el) rho (on_fst cmp)).
Proof.
  intros c s. unfold trial_then_emit, on_fst.
  destruct (cmp rho (fst s)) as [[] s1]; simpl.
  - right. unfold logged. simpl. destruct (el (edge_of c) s1); reflexivity.
  - left. reflexivity.
Qed.

Lemma run_candidates_emitted (cands : list (Z * Z)) (el : EdgeLambda St)
  (rho : float) (cmp : bTrial St) (s : St) :
  NoDup cands ->
  let log := snd (snd (run_candidates cands (logged el) rho (on_fst cmp) (s, []))) in
  stops_at_first_true log /\ NoDup (delivered log) /\
  (forall e, e ∈ delivered log -> (U e, V e) ∈ cands).
Proof.
  intros Hnd.
  destruct (deliver_log_from_empty (fun s : St * list (BaseEdge * bool) => snd s)
              edge_of _ (trial_then_emit_logs el rho cmp) cands (s, [])
              eq_refl (NoDup_edges _ Hnd)) as (H1 & H2 & H3).
  repeat split; try assumption.
  intros e He. apply elem_of_edges. apply H3. exact He.
Qed.

(** In a pass that is never terminated every candidate gets one trial. *)
Lemma run_candidates_trials (cands : list (Z * Z)) (el : EdgeLambda St)
  (rho : float) (cmp : bTrial St) (s : St) (k : nat) :
  (forall e s, fst (el e s) = false) ->
  fst (run_candidates cands (on_fst el) rho (counted cmp) (s, k)) = false /\
  snd (snd (run_candidates cands (on_fst el) rho (counted cmp) (s, k)))
  = (k + length cands)%nat.
Proof.
  intros Hel. unfold run_candidates. revert s k.
  induction cands as [|c cands IH]; intros s k; simpl.
  - auto with arith.
  - unfold trial_then_emit at 1 3, counted at 1 3. simpl.
    destruct (cmp rho s) as [[] s1]; simpl.
    + unfold on_fst at 1 3. simpl. specialize (Hel (edge_of c) s1).
      destruct (el (edge_of c) s1) as [t s2]. simpl in Hel. subst t. simpl.
      destruct (IH s2 (S k)) as [E1 E2]. rewrite E1, E2. split; [auto | lia].
    + destruct (IH s1 (S k)) as [E1 E2]. rewrite E1, E2. split; [auto | lia].
Qed.

(** C4: a pass of the undirected creator is one trial per pair of
    [pairs_lt order], taken in order until the callback terminates, and
    [pairs_lt order] holds exactly the pairs [(u, v)] with
    [0 <= u < v < order], each once; a pass of the directed creator is the
    same over [pairs_ne order], the ordered pairs of two different
    vertices below [order].  Hence the edges handed to the callback are
    pairwise different, none is a loop and, undirected, none is the
    reverse of another; and a pass that is not terminated runs as many
    trials as there are pairs. *)
Theorem C4_creators_consider_each_pair_once (el : EdgeLambda St) (order : Z)
  (rho : float) (cmp : bTrial St) (s : St) :
  (bernoulliEdgeCreator el order rho cmp s
     = snd (run_candidates (pairs_lt order) el rho cmp s) /\
   NoDup (pairs_lt order) /\
   (forall u v, (u, v) ∈ pairs_lt order <-> 0 <= u /\ u < v /\ v < order)) /\
  (bernoulliArcCreator el order rho cmp s
     = snd (run_candidates (pairs_ne order) el rho cmp s) /\
   NoDup (pairs_ne order) /\
   (forall u v, (u, v) ∈ pairs_ne order <->
                0 <= u < order /\ 0 <= v < order /\ u <> v)) /\
  (let log := snd (bernoulliEdgeCreator (logged el) order rho (on_fst cmp) (s, [])) in
   NoDup (delivered log) /\
   (forall e, e ∈ delivered log ->
      0 <= U e /\ U e < V e /\ V e < order /\
      {| U := V e; V := U e |} ∉ delivered log)) /\
  (let log := snd (bernoulliArcCreator (logged el) order rho (on_fst cmp) (s, [])) in
   NoDup (delivered log) /\
   (forall e, e ∈ delivered log ->
      0 <= U e < order /\ 0 <= V e < order /\ U e <> V e)) /\
  ((forall e s, fst (el e s) = false) ->
   snd (bernoulliEdgeCreator (on_fst el) order rho (counted cmp) (s, O))
     = length (pairs_lt order) /\
   snd (bernoulliArcCreator (on_fst el) order rho (counted cmp) (s, O))
     = length (pairs_ne order)).
Proof.
  split; [|split; [|split; [|split]]].
  - split; [apply bernoulliEdgeCreator_run|].
    split; [apply NoDup_pairs_lt | apply elem_of_pairs_lt].
  - split; [apply bernoulliArcCreator_run|].
    split; [apply NoDup_pairs_ne | apply elem_of_pairs_ne].
  - rewrite bernoulliEdgeCreator_run.
    destruct (run_candidates_emitted (pairs_lt order) el rho cmp s
                (NoDup_pairs_lt order)) as (_ & Hnd & Hin).
    split; [exact Hnd|]. intros e He.
    pose proof (Hin e He) as Hp. apply elem_of_pairs_lt in Hp.
    repeat split; try lia.
    intros Hrev. apply Hin in Hrev. simpl in Hrev.
    apply elem_of_pairs_lt in Hrev. lia.
  - rewrite bernoulliArcCreator_run.
    destruct (run_candidates_emitted (pairs_ne order) el rho cmp s
                (NoDup_pairs_ne order)) as (_ & Hnd & Hin).
    split; [exact Hnd|]. intros e He.
    pose proof (Hin e He) as Hp. apply elem_of_pairs_ne in Hp. lia.
  - intros Hel. rewrite bernoulliEdgeCreator_run, bernoulliArcCreator_run.
    split; apply (run_candidates_trials _ el rho cmp s O Hel).
Qed.

End CandidateFacts.

(** ** Traversals of the generators *)

Section TraversalFacts.

Import GoInt Bernoulli Reference.

Variable RS : Type.

Abbreviation stableGraph := (stableBernoulliGraph RS).
Abbreviation unstableGraph := (unstableBernoulliGraph RS).

Lemma stable_replay_deliver {A : Type} (f : EdgeLambda A) (l : list row) (w : run RS A) :
  stable_replay f l w = snd (deliver (replay_pairs l) (replay_step f) w).
Proof.
  unfold stable_replay, range_loop, replay_pairs.
  rewrite range_from_deliver, deliver_flat_map. f_equal.
  apply deliver_ext. intros [u [cells|]] w'; simpl; [|reflexivity].
  rewrite range_from_deliver, deliver_map.
  rewrite <- (fst_zip (seqZ 0 (Z.of_nat (length cells))) cells) at 2
    by (rewrite length_seqZ; lia).
  rewrite deliver_map. reflexivity.
Qed.

Lemma NoDup_replay_pairs (l : list row) : NoDup (replay_pairs l).
Proof.
  unfold replay_pairs.
  apply (NoDup_flat_map_keyed fst (fun ur : Z * row => row_indices (snd ur))).
  - change (map fst ?x) with (x.*1).
    rewrite fst_zip by (rewrite length_seqZ; lia). apply NoDup_seqZ.
  - intros [u [cells|]]; simpl; [apply NoDup_seqZ | constructor].
Qed.

Lemma replay_step_logs {A : Type} (f : EdgeLambda A) :
  logs_at_most_once (@run_log RS A BaseEdge) edge_of (replay_step (logged f)).
Proof.
  intros c w. right. unfold replay_step, logged, run_log. simpl.
  destruct (f (edge_of c) (fst (caller w))); reflexivity.
Qed.

Lemma stable_first_pass_logs {A : Type} (f : EdgeLambda A) (rho : float) (t : bTrial RS) :
  logs_at_most_once (@run_log RS A BaseEdge) edge_of
    (trial_then_emit (stable_ff (logged f)) rho (stable_trial t)).
Proof.
  intros c w. unfold trial_then_emit, stable_trial, run_log.
  destruct (t rho (source w)) as [[] r]; simpl; [|left; reflexivity].
  unfold stable_ff. simpl.
  destruct (record_edge (graph w) (edge_of c)) as [g'|]; simpl.
  - right. unfold logged. simpl.
    destruct (f (edge_of c) (fst (caller w))); reflexivity.
  - left. reflexivity.
Qed.

Lemma unstable_pass_logs {A : Type} (f : EdgeLambda A) (rho : float) (t : bTrial RS) :
  logs_at_most_once (fun w : RS * (A * list (BaseEdge * bool)) => snd (snd w))
    edge_of
    (trial_then_emit (unstable_el (logged f)) rho (unstable_trial t)).
Proof.
  intros c w. unfold trial_then_emit, unstable_trial.
  destruct (t rho (fst w)) as [[] r]; simpl; [|left; reflexivity].
  right. unfold unstable_el, logged. simpl.
  destruct (f (edge_of c) (fst (snd w))); reflexivity.
Qed.

Lemma NoDup_candidates (directed : bool) (order : Z) :
  NoDup (candidates directed order).
Proof. destruct directed; [apply NoDup_pairs_ne | apply NoDup_pairs_lt]. Qed.

Lemma creator_candidates {St : Type} (directed : bool) (el : EdgeLambda St)
  (order : Z) (rho : float) (cmp : bTrial St) (s : St) :
  (if directed then bernoulliArcCreator el order rho cmp s
   else bernoulliEdgeCreator el order rho cmp s)
  = snd (run_candidates (candidates directed order) el rho cmp s).
Proof.
  destruct directed;
    [apply bernoulliArcCreator_run | apply bernoulliEdgeCreator_run].
Qed.

Lemma each_vertex_well_delivered {A : Type} (order : Z) (f : VertexLambda A) (a : A) :
  well_delivered (snd (snd (for_range 0 order (logged f) (a, [])))).
Proof.
  rewrite for_range_deliver.
  destruct (deliver_log_from_empty (fun s : A * list (Z * bool) => snd s)
              (fun x => x) _ (logged_logs f) (seqZ 0 (order - 0)) (a, [])
              eq_refl) as (H1 & H2 & _).
  - rewrite map_id. apply NoDup_seqZ.
  - split; assumption.
Qed.

(** Records delivered once each are edges delivered once each, when in
    the undirected case every record is written smaller vertex first. *)
Lemma NoDup_edge_keys (directed : bool) (es : list BaseEdge) :
  NoDup es ->
  (directed = false -> forall e, e ∈ es -> U e < V e) ->
  NoDup (map (edge_key directed) es).
Proof.
  intros Hnd Hlt.
  assert (E : map (edge_key directed) es = map (fun e => (U e, V e)) es).
  { apply map_ext_in. intros e He. apply list_elem_of_In in He.
    unfold edge_key. destruct directed; [reflexivity|].
    specialize (Hlt eq_refl e He). f_equal; lia. }
  rewrite E. apply NoDup_fmap_2; [|exact Hnd].
  intros [u v] [u' v'] H. simpl in H. congruence.
Qed.

Lemma candidates_oriented (directed : bool) (order : Z) (e : BaseEdge) :
  directed = false -> e ∈ map edge_of (candidates directed order) -> U e < V e.
Proof.
  intros -> He. apply elem_of_edges in He. simpl in He.
  apply elem_of_pairs_lt in He. lia.
Qed.

(** X19: every enumeration of a Bernoulli generator -- [EachVertex] and
    [EachEdge], stable and unstable, whatever state the generator and the
    random source are in -- delivers nothing after the first call at which
    the step function returns true.  [EachVertex] delivers no vertex
    twice.  [EachEdge] of an unstable generator, and of a stable one whose
    table is not allocated yet, delivers no edge twice, an undirected edge
    counted once for both ways of writing it.  The replay of an allocated
    table delivers no record [(u, v)] twice, which is no edge twice when
    the generator is directed. *)
Theorem X19_enumerations_stop_and_generation_does_not_repeat {A : Type}
  (fv : VertexLambda A) (fe : EdgeLambda A)
  (a : A) (sg : stableGraph) (ug : unstableGraph) (r : RS) (p : bool) :
  well_delivered (snd (stable_EachVertex sg (logged fv) (a, []))) /\
  well_delivered (snd (unstable_EachVertex ug (logged fv) (a, []))) /\
  edges_well_delivered (u_directed ug)
    (snd (snd (unstable_EachEdge ug (logged fe) (r, (a, []))))) /\
  edges_well_delivered true
    (snd (caller (stable_EachEdge (logged fe) (mkRun sg r (a, []) p)))) /\
  (s_list sg = None \/ s_directed sg = true ->
   edges_well_delivered (s_directed sg)
     (snd (caller (stable_EachEdge (logged fe) (mkRun sg r (a, []) p))))).
Proof.
  split; [|split; [|split]].
  - apply each_vertex_well_delivered.
  - apply each_vertex_well_delivered.
  - unfold unstable_EachEdge. rewrite creator_candidates.
    destruct (deliver_log_from_empty
                (fun w : RS * (A * list (BaseEdge * bool)) => snd (snd w))
                edge_of _
                (unstable_pass_logs fe (u_rho ug) (u_trial ug))
                (candidates (u_directed ug) (int_of_uint (u_order ug)))
                (r, (a, [])) eq_refl
                (NoDup_edges _ (NoDup_candidates _ _))) as (H1 & H2 & H3).
    split; [exact H1|]. apply NoDup_edge_keys; [exact H2|].
    intros Hd e He. eapply candidates_oriented; [exact Hd | apply H3, He].
  - unfold stable_EachEdge. simpl.
    destruct (s_list sg) as [l|] eqn:Hl.
    + rewrite stable_replay_deliver.
      destruct (deliver_log_from_empty (@run_log RS A BaseEdge) edge_of _
                  (replay_step_logs fe)
                  (replay_pairs l) (mkRun sg r (a, []) p) eq_refl
                  (NoDup_edges _ (NoDup_replay_pairs l))) as (H1 & H2 & _).
      assert (Ht : edges_well_delivered true
                     (run_log (snd (deliver (replay_pairs l)
                                      (replay_step (logged fe))
                                      (mkRun sg r (a, []) p))))).
      { split; [exact H1|]. apply NoDup_edge_keys; [exact H2|]. discriminate. }
      split; [exact Ht|]. intros [Hn|Hd]; [discriminate Hn|].
      rewrite Hd. exact Ht.
    + destruct (make (None : row) (s_order sg)) as [l|]; simpl.
      * rewrite creator_candidates.
        destruct (deliver_log_from_empty (@run_log RS A BaseEdge) edge_of _
                    (stable_first_pass_logs fe (s_rho sg) (s_trial sg))
                    (candidates (s_directed sg) (int_of_uint (s_order sg)))
                    (mkRun (with_list sg (Some l)) r (a, []) p) eq_refl
                    (NoDup_edges _ (NoDup_candidates _ _))) as (H1 & H2 & H3).
        split; [|intros _]; (split; [exact H1|]);
          (apply NoDup_edge_keys; [exact H2|]).
        -- discriminate.
        -- intros Hd e He.
           eapply candidates_oriented; [exact Hd | apply H3, He].
      * split; [|intros _]; (split; [intros i x H; discriminate H | constructor]).
Qed.

End TraversalFacts.

(** ** C10: the vertices *)

Section VertexFacts.

Import GoInt Bernoulli Reference.

Variable RS : Type.

Lemma each_vertex_all {A : Type} (order : Z) (f : VertexLambda A) (a : A) :
  (forall v a, fst (f v a) = false) ->
  0 <= order <= max_int ->
  delivered (snd (snd (for_range 0 (int_of_uint order) (logged f) (a, []))))
  = seqZ 0 order.
Proof.
  intros Hf Ho. rewrite int_of_uint_small, for_range_deliver, Z.sub_0_r by lia.
  destruct (deliver_logged_all f (seqZ 0 order) a [] Hf) as [_ E].
  unfold Vertex in *. rewrite E. simpl. unfold delivered. rewrite map_map. simpl. apply map_id.
Qed.

(** C10 (amended): for an order that is a non-negative [int], [EachVertex]
    of a stable or unstable generator with a step function that never
    terminates delivers exactly 0, 1, ..., order-1 in increasing order,
    whatever ρ, the trial, the random source and the table and counter of
    the generator are. *)
Theorem C10_each_vertex_in_order {A : Type} (f : VertexLambda A) (a : A)
  (sg : stableBernoulliGraph RS) (ug : unstableBernoulliGraph RS) :
  (forall v a, fst (f v a) = false) ->
  0 <= s_order sg <= max_int ->
  0 <= u_order ug <= max_int ->
  let vs := delivered (snd (stable_EachVertex sg (logged f) (a, []))) in
  let vu := delivered (snd (unstable_EachVertex ug (logged f) (a, []))) in
  vs = seqZ 0 (s_order sg) /\
  vu = seqZ 0 (u_order ug) /\
  (forall i, 0 <= i < s_order sg -> vs !! Z.to_nat i = Some i) /\
  (forall i, 0 <= i < u_order ug -> vu !! Z.to_nat i = Some i).
Proof.
  intros Hf Hs Hu vs vu.
  assert (Es : vs = seqZ 0 (s_order sg)) by (apply each_vertex_all; assumption).
  assert (Eu : vu = seqZ 0 (u_order ug)) by (apply each_vertex_all; assumption).
  repeat split; try assumption.
  - intros i Hi. rewrite Es, lookup_seqZ. split; lia.
  - intros i Hi. rewrite Eu, lookup_seqZ. split; lia.
Qed.

End VertexFacts.

(** The theorem at a stable and an unstable generator of three vertices. *)
Lemma C10_three_vertices :
  let sg := Bernoulli.mkStable (RS := Reference.scripted) 3 0.5%float
              (fun _ r => (false, r)) 0 false None in
  let ug := Bernoulli.mkUnstable (RS := Reference.scripted) 3 0.5%float
              (fun _ r => (false, r)) true in
  (0 <= 3 <= GoInt.max_int) /\
  delivered (snd (Bernoulli.stable_EachVertex sg (logged Reference.go_on) (tt, [])))
  = [0; 1; 2] /\
  delivered (snd (Bernoulli.unstable_EachVertex ug (logged Reference.go_on) (tt, [])))
  = [0; 1; 2].
Proof.
  intros sg ug.
  assert (Hr : 0 <= 3 <= GoInt.max_int) by (unfold GoInt.max_int; lia).
  destruct (C10_each_vertex_in_order Reference.scripted Reference.go_on tt sg ug
              (fun _ _ => eq_refl) Hr Hr) as (Es & Eu & _).
  split; [exact Hr|]. split; [exact Es | exact Eu].
Defined.

(** C10 as stated fails for an order that is not an [int]: with
    [n = 2^63] the conversion [int(g.order)] is negative, the loop body
    never runs, and nothing is delivered although 0 is below [n]. *)
Lemma C10_order_beyond_int :
  match Bernoulli.BernoulliDistribution Reference.scripted
          Reference.scripted_Float64 (2 ^ 63) 0.5%float false true None with
  | Bernoulli.Returned (Bernoulli.Stable sg) =>
      delivered (snd (Bernoulli.stable_EachVertex sg
                        (logged Reference.go_on) (tt, []))) = [] /\
      Bernoulli.stable_Order sg = - 2 ^ 63 /\
      0 ∈ seqZ 0 (Bernoulli.s_order sg)
  | _ => False
  end.
Proof.
  cbv beta iota delta [Bernoulli.BernoulliDistribution].
  change ((0.5 <? 0)%float) with false.
  change ((1 <=? 0.5)%float) with false.
  cbv beta iota delta [orb]. split; [|split].
  - vm_compute. reflexivity.
  - vm_compute. reflexivity.
  - apply elem_of_seqZ. cbn [Bernoulli.s_order]. lia.
Qed.

(** ** The first traversal of a stable generator *)

Section MaterializeFacts.

Import GoInt Bernoulli Reference.

Variable RS : Type.

Lemma make_fits {T : Type} (zero : T) (n : Z) :
  n <= max_int -> make zero n = Some (replicate (Z.to_nat n) zero).
Proof. intros H. unfold make. apply Z.leb_le in H. rewrite H. reflexivity. Qed.

Lemma make_too_long {T : Type} (zero : T) (n : Z) :
  max_int < n -> make zero n = None.
Proof. intros H. unfold make. apply Z.leb_gt in H. rewrite H. reflexivity. Qed.

Lemma table_ok_fresh (n : Z) : table_ok n (replicate (Z.to_nat n) None).
Proof.
  split; [apply length_replicate|]. intros u cells H.
  apply lookup_replicate in H. destruct H as [H _]. discriminate H.
Qed.

Lemma table_ok_mark (n : Z) (l : list row) (u : nat) :
  table_ok n l -> table_ok n (<[u := Some (replicate (Z.to_nat n) tt)]> l).
Proof.
  intros [Hlen Hrows]. split; [rewrite length_insert; exact Hlen|].
  intros u' cells H. destruct (decide (u = u')) as [->|Hne].
  - destruct (decide (u' < length l)%nat) as [Hlt|Hge].
    + rewrite list_lookup_insert_eq in H by exact Hlt. congruence.
    + assert (Hx : (length l <= u')%nat) by lia.
      rewrite list_insert_ge in H by exact Hx. eapply Hrows, H.
  - rewrite list_lookup_insert_ne in H by exact Hne. eapply Hrows, H.
Qed.

Lemma store_unit (n : nat) (v : Z) :
  0 <= v < Z.of_nat n -> store (replicate n tt) v tt = Some (replicate n tt).
Proof.
  intros Hv. unfold store. rewrite length_replicate.
  destruct (Z.leb_spec 0 v); [|lia]. destruct (Z.ltb_spec v (Z.of_nat n)); [|lia].
  simpl. f_equal. apply list_eq. intros i.
  destruct (decide (i = Z.to_nat v)) as [->|Hne].
  - rewrite list_lookup_insert_eq by (rewrite length_replicate; lia).
    symmetry. apply lookup_replicate. split; [reflexivity | lia].
  - rewrite list_lookup_insert_ne by congruence. reflexivity.
Qed.

(** Recording an edge of the generator's own range never panics: it
    allocates the row of the source vertex and adds one to the counter. *)
Lemma record_edge_ok (g : stableBernoulliGraph RS) (l : list row) (c : Z * Z) :
  s_list g = Some l ->
  0 <= s_order g <= max_int ->
  table_ok (s_order g) l ->
  0 <= fst c < s_order g -> 0 <= snd c < s_order g ->
  record_edge g (edge_of c)
  = Some (settled g (<[Z.to_nat (fst c) := Some (replicate (Z.to_nat (s_order g)) tt)]> l)
                  (int_add (s_size g) 1)).
Proof.
  intros Hl Hn [Hlen Hrows] Hu Hv. unfold record_edge. rewrite Hl. simpl.
  unfold index, Source, Target. simpl.
  destruct (Z.leb_spec 0 (fst c)); [|lia].
  destruct (lookup_lt_is_Some_2 l (Z.to_nat (fst c)) ltac:(lia)) as [r Hr].
  unfold row in *. rewrite Hr. simpl.
  assert (Hrow : match r with
                 | None => make tt (s_order g)
                 | Some cells => Some cells
                 end = Some (replicate (Z.to_nat (s_order g)) tt)).
  { destruct r as [cells|].
    - f_equal. eapply Hrows, Hr.
    - apply make_fits. lia. }
  rewrite Hrow. simpl. rewrite store_unit by lia. simpl.
  unfold store. destruct (Z.leb_spec 0 (fst c)); [|lia].
  destruct (Z.ltb_spec (fst c) (Z.of_nat (length l))); [|lia].
  reflexivity.
Qed.

Lemma settled_same (g : stableBernoulliGraph RS) (l : list row) :
  s_list g = Some l -> settled g l (s_size g) = g.
Proof. destruct g. simpl. intros ->. reflexivity. Qed.

Lemma count_up_succ_r (z : Z) (k : nat) :
  count_up (int_add z 1) k = count_up z (S k).
Proof. unfold count_up. rewrite Nat.iter_succ_r. reflexivity. Qed.

Lemma count_up_wrap (k : nat) : count_up 0 k = wrap_int (Z.of_nat k).
Proof.
  induction k as [|k IH].
  - reflexivity.
  - unfold count_up in *. simpl Nat.iter. rewrite IH. unfold int_add.
    rewrite wrap_int_succ. f_equal. lia.
Qed.

(** A complete first pass over candidates of the generator's own range:
    the edges recorded are the candidates whose trial succeeds. *)
Lemma first_pass_full {A : Type} (f : EdgeLambda A) (rho : float)
  (t : bTrial RS) (cands : list (Z * Z)) :
  (forall e a, fst (f e a) = false) ->
  forall (w : run RS A) (l : list row),
    s_list (graph w) = Some l ->
    0 <= s_order (graph w) <= max_int ->
    table_ok (s_order (graph w)) l ->
    Forall (fun c => 0 <= fst c < s_order (graph w) /\
                     0 <= snd c < s_order (graph w)) cands ->
    deliver cands (trial_then_emit (stable_ff f) rho (stable_trial t)) w
    = (false,
       mkRun (settled (graph w)
                (marked (s_order (graph w)) l (fst (select t rho cands (source w))))
                (count_up (s_size (graph w))
                   (length (fst (select t rho cands (source w))))))
             (snd (select t rho cands (source w)))
             (fed f (fst (select t rho cands (source w))) (caller w))
             (panicked w)).
Proof.
  intros Hf. induction cands as [|c cands IH]; intros w l Hl Hn Hok Hin.
  - simpl. rewrite settled_same by exact Hl. destruct w; reflexivity.
  - apply Forall_cons in Hin. destruct Hin as [[Hu Hv] Hin].
    simpl. unfold trial_then_emit at 1, stable_trial at 1.
    destruct (t rho (source w)) as [hit r1] eqn:Et.
    destruct hit.
    + unfold stable_ff at 1. simpl.
      rewrite (record_edge_ok _ l c Hl Hn Hok Hu Hv).
      pose proof (Hf (edge_of c) (caller w)) as Hfc.
      destruct (f (edge_of c) (caller w)) as [stop a1] eqn:Ef.
      simpl in Hfc. subst stop.
      rewrite (IH (mkRun (settled (graph w)
                            (<[Z.to_nat (fst c) :=
                                 Some (replicate (Z.to_nat (s_order (graph w))) tt)]> l)
                            (int_add (s_size (graph w)) 1))
                         r1 a1 (panicked w))
                  (<[Z.to_nat (fst c) :=
                       Some (replicate (Z.to_nat (s_order (graph w))) tt)]> l));
        simpl; try assumption; try reflexivity.
      * destruct (select t rho cands r1) as [sel r2]. simpl.
        rewrite count_up_succ_r. unfold fed. simpl. rewrite Ef. reflexivity.
      * apply table_ok_mark. exact Hok.
    + rewrite (IH _ l); simpl; try assumption.
      destruct (select t rho cands r1) as [sel r2]. reflexivity.
Qed.

End MaterializeFacts.

(** ** What a trial selects *)

Section SelectFacts.

Import Bernoulli Reference.

Context {RS X : Type}.

Lemma select_sublist (t : bTrial RS) (rho : float) (cands : list X) (r : RS) :
  sublist (fst (select t rho cands r)) cands.
Proof.
  revert r. induction cands as [|c cands IH]; intros r; simpl.
  - constructor.
  - destruct (t rho r) as [hit r1]. specialize (IH r1).
    destruct (select t rho cands r1) as [sel r2]. simpl in *.
    destruct hit; [apply sublist_skip | apply sublist_cons]; exact IH.
Qed.

Lemma select_length (t : bTrial RS) (rho : float) (cands : list X) (r : RS) :
  (length (fst (select t rho cands r)) <= length cands)%nat.
Proof. apply sublist_length, select_sublist. Qed.

Lemma select_NoDup (t : bTrial RS) (rho : float) (cands : list X) (r : RS) :
  NoDup cands -> NoDup (fst (select t rho cands r)).
Proof. intros H. exact (sublist_NoDup _ _ H (select_sublist t rho cands r)). Qed.

Lemma select_elem_of (t : bTrial RS) (rho : float) (cands : list X) (r : RS) x :
  x ∈ fst (select t rho cands r) -> x ∈ cands.
Proof. intros H. eapply elem_of_sublist; [exact H | apply select_sublist]. Qed.

End SelectFacts.

(** ** How many candidate pairs there are *)

Section CountFacts.

Import Reference.

Lemma length_filter_ne (u : Z) (k : nat) :
  forall lo,
    length (filter (fun v => u ≠ v) (seqZ lo (Z.of_nat k)))
    = if decide (lo <= u < lo + Z.of_nat k) then (k - 1)%nat else k.
Proof.
  induction k as [|k IH]; intros lo.
  - simpl. destruct (decide _); reflexivity.
  - rewrite seqZ_cons by lia.
    replace (Z.pred (Z.of_nat (S k))) with (Z.of_nat k) by lia.
    rewrite filter_cons. specialize (IH (Z.succ lo)).
    destruct (decide (u ≠ lo)) as [Hne|Heq]; simpl; rewrite IH.
    + destruct (decide (Z.succ lo <= u < Z.succ lo + Z.of_nat k));
        destruct (decide (lo <= u < lo + Z.of_nat (S k))); lia.
    + destruct (decide (Z.succ lo <= u < Z.succ lo + Z.of_nat k));
        destruct (decide (lo <= u < lo + Z.of_nat (S k))); lia.
Qed.

Lemma length_pairs_ne (order : Z) :
  0 <= order ->
  Z.of_nat (length (pairs_ne order)) = order * (order - 1).
Proof.
  intros Ho. unfold pairs_ne.
  rewrite (length_flat_map_const _ _ (Z.to_nat order - 1)%nat).
  - rewrite length_seqZ. nia.
  - intros u Hu. apply elem_of_seqZ in Hu. rewrite length_map.
    rewrite <- (Z2Nat.id order) at 1 by exact Ho.
    rewrite length_filter_ne.
    destruct (decide (0 <= u < 0 + Z.of_nat (Z.to_nat order))); lia.
Qed.

Lemma length_pairs_from (order : Z) (k : nat) :
  forall a,
    a + Z.of_nat k = order ->
    Z.of_nat (length (flat_map
                        (fun u => map (pair u) (seqZ (u + 1) (order - (u + 1))))
                        (seqZ a (Z.of_nat k))))
    = Z.of_nat k * (Z.of_nat k - 1) / 2.
Proof.
  induction k as [|k IH]; intros a Ha.
  - reflexivity.
  - rewrite seqZ_cons by lia.
    replace (Z.pred (Z.of_nat (S k))) with (Z.of_nat k) by lia.
    simpl flat_map. rewrite length_app, length_map, length_seqZ.
    rewrite Nat2Z.inj_add, (IH (Z.succ a)) by lia.
    replace (Z.of_nat (S k) * (Z.of_nat (S k) - 1))
      with (Z.of_nat k * (Z.of_nat k - 1) + Z.of_nat k * 2) by lia.
    rewrite Z.div_add by lia. lia.
Qed.

Lemma length_pairs_lt (order : Z) :
  0 <= order ->
  Z.of_nat (length (pairs_lt order)) = order * (order - 1) / 2.
Proof.
  intros Ho. unfold pairs_lt.
  pose proof (length_pairs_from order (Z.to_nat order) 0 ltac:(lia)) as H.
  rewrite Z2Nat.id in H by exact Ho. exact H.
Qed.

(** The number of candidate pairs: n(n-1) ordered, n(n-1)/2 unordered. *)
Lemma length_candidates (directed : bool) (order : Z) :
  0 <= order ->
  Z.of_nat (length (candidates directed order))
  = if directed then order * (order - 1) else order * (order - 1) / 2.
Proof.
  destruct directed; [apply length_pairs_ne | apply length_pairs_lt].
Qed.

Lemma length_candidates_le (directed : bool) (order : Z) :
  0 <= order ->
  Z.of_nat (length (candidates directed order)) <= order * (order - 1).
Proof.
  intros Ho. rewrite length_candidates by exact Ho. destruct directed; [lia|].
  apply Z.div_le_upper_bound; nia.
Qed.

Lemma candidates_in_range (directed : bool) (order : Z) :
  Forall (fun c => 0 <= fst c < order /\ 0 <= snd c < order)
         (candidates directed order).
Proof.
  apply Forall_forall. intros [u v] Hin. simpl.
  destruct directed; simpl in Hin.
  - apply elem_of_pairs_ne in Hin. lia.
  - apply elem_of_pairs_lt in Hin. lia.
Qed.

End CountFacts.

(** ** The table after the first traversal, and what a replay reads off it *)

Section TableFacts.

Import Bernoulli Reference.

Lemma length_marked (n : Z) (sel : list (Z * Z)) :
  forall l, length (marked n l sel) = length l.
Proof.
  induction sel as [|c sel IH]; intros l.
  - reflexivity.
  - change (marked n l (c :: sel))
      with (marked n (<[Z.to_nat (fst c) := Some (replicate (Z.to_nat n) tt)]> l) sel).
    rewrite IH. apply length_insert.
Qed.

(** A row is allocated iff its vertex is the source of a recorded edge;
    every other row is as before. *)
Lemma lookup_marked (n : Z) (sel : list (Z * Z)) :
  forall (l : list row) (u : nat),
    Forall (fun c => 0 <= fst c < Z.of_nat (length l)) sel ->
    (u < length l)%nat ->
    marked n l sel !! u
    = if decide (Z.of_nat u ∈ map fst sel)
      then Some (Some (replicate (Z.to_nat n) tt))
      else l !! u.
Proof.
  unfold row. induction sel as [|c sel IH]; intros l u Hin Hu.
  - change (marked n l []) with l.
    destruct (decide (Z.of_nat u ∈ map fst ([] : list (Z * Z)))) as [H|H];
      [|reflexivity].
    apply elem_of_nil in H. contradiction.
  - apply Forall_cons in Hin. destruct Hin as [Hc Hin].
    change (marked n l (c :: sel))
      with (marked n (<[Z.to_nat (fst c) := Some (replicate (Z.to_nat n) tt)]> l) sel).
    rewrite IH.
    + change (map fst (c :: sel)) with (fst c :: map fst sel).
      destruct (decide (Z.of_nat u ∈ map fst sel)) as [Hs|Hs].
      * case_decide as H; [reflexivity|].
        exfalso. apply H. right. exact Hs.
      * destruct (decide (u = Z.to_nat (fst c))) as [->|Hne].
        -- rewrite list_lookup_insert_eq by lia.
           case_decide as H; [reflexivity|].
           exfalso. apply H. rewrite Z2Nat.id by lia. left.
        -- rewrite list_lookup_insert_ne by congruence.
           case_decide as H; [|reflexivity].
           exfalso. apply elem_of_cons in H. destruct H as [H|H]; [lia | auto].
    + rewrite length_insert. exact Hin.
    + rewrite length_insert. exact Hu.
Qed.

(** The pairs of a replay: [(u, v)] for every allocated row [u] and every
    index [v] of that row. *)
Lemma elem_of_replay_pairs (l : list row) (u v : Z) :
  (u, v) ∈ replay_pairs l <->
  0 <= u /\
  exists cells, l !! Z.to_nat u = Some (Some cells) /\
                0 <= v < Z.of_nat (length cells).
Proof.
  unfold replay_pairs.
  rewrite (elem_of_flat_map_keyed fst (fun ur : Z * row => row_indices (snd ur))).
  split.
  - intros ([u' r] & Hx & Hk & Hv). simpl in Hk, Hv. subst u'.
    apply list_elem_of_lookup in Hx. destruct Hx as [i Hi].
    apply lookup_zip_Some in Hi. destruct Hi as [Hi1 Hi2].
    apply lookup_seqZ in Hi1. destruct Hi1 as [-> _].
    split; [lia|]. rewrite Z.add_0_l, Nat2Z.id.
    destruct r as [cells|]; simpl in Hv.
    + exists cells. split; [exact Hi2|]. apply elem_of_seqZ in Hv. lia.
    + apply elem_of_nil in Hv. contradiction.
  - intros (Hu & cells & Hl & Hv). exists (u, Some cells). simpl.
    split; [|split; [reflexivity | apply elem_of_seqZ; lia]].
    apply list_elem_of_lookup. exists (Z.to_nat u).
    apply lookup_zip_Some. split; [|exact Hl].
    apply lookup_seqZ. apply lookup_lt_Some in Hl. unfold row in *. lia.
Qed.

(** After the edges [sel] of a generator of [n] vertices have been
    recorded in a fresh table, a replay walks through [(u, v)] for every
    source vertex [u] of [sel] and every [v] below [n]. *)
Lemma elem_of_replay_marked (n : Z) (sel : list (Z * Z)) (u v : Z) :
  0 <= n ->
  Forall (fun c => 0 <= fst c < n /\ 0 <= snd c < n) sel ->
  (u, v) ∈ replay_pairs (marked n (replicate (Z.to_nat n) None) sel)
  <-> u ∈ map fst sel /\ 0 <= v < n.
Proof.
  intros Hn Hsel. rewrite elem_of_replay_pairs.
  assert (Hsel' : Forall (fun c : Z * Z =>
              0 <= fst c < Z.of_nat (length (replicate (Z.to_nat n) (None : row)))) sel).
  { rewrite length_replicate. eapply Forall_impl; [exact Hsel|].
    intros c [Hc _]. simpl. lia. }
  pose proof (fun i => lookup_marked n sel _ i Hsel') as Hlook.
  rewrite length_replicate in Hlook. unfold row in *.
  split.
  - intros (Hu & cells & Hl & Hv).
    assert (Hlt : (Z.to_nat u < Z.to_nat n)%nat).
    { apply lookup_lt_Some in Hl. rewrite length_marked, length_replicate in Hl.
      exact Hl. }
    rewrite (Hlook _ Hlt), Z2Nat.id in Hl by exact Hu.
    destruct (decide (u ∈ map fst sel)) as [Hs|Hs].
    + injection Hl as <-. rewrite length_replicate in Hv. split; [exact Hs | lia].
    + apply lookup_replicate in Hl. destruct Hl as [Hl _]. discriminate Hl.
  - intros [Hs Hv].
    assert (Hu : 0 <= u < n).
    { apply list_elem_of_fmap in Hs. destruct Hs as (c & -> & Hc).
      rewrite Forall_forall in Hsel. apply Hsel in Hc. lia. }
    split; [lia|]. exists (replicate (Z.to_nat n) tt).
    rewrite length_replicate. split; [|lia].
    rewrite Hlook, Z2Nat.id by lia.
    destruct (decide (u ∈ map fst sel)); [reflexivity | contradiction].
Qed.

End TableFacts.

(** ** The stable generator: first traversal, replay and Size *)

Section StableFacts.

Import GoInt Bernoulli Reference.

Variable RS : Type.

Lemma generated_in_range (g : stableBernoulliGraph RS) (r : RS) :
  Forall (fun c => 0 <= fst c < s_order g /\ 0 <= snd c < s_order g)
         (generated g r).
Proof.
  apply Forall_forall. intros c Hc. apply select_elem_of in Hc.
  pose proof (candidates_in_range (s_directed g) (s_order g)) as H.
  rewrite Forall_forall in H. apply H, Hc.
Qed.

Lemma generated_NoDup (g : stableBernoulliGraph RS) (r : RS) :
  NoDup (generated g r).
Proof. apply select_NoDup, NoDup_candidates. Qed.

Lemma generated_no_loop (g : stableBernoulliGraph RS) (r : RS) (u : Z) :
  (u, u) ∉ generated g r.
Proof.
  intros Hc. apply select_elem_of in Hc. destruct (s_directed g); simpl in Hc.
  - apply elem_of_pairs_ne in Hc. lia.
  - apply elem_of_pairs_lt in Hc. lia.
Qed.

Lemma generated_length (g : stableBernoulliGraph RS) (r : RS) :
  0 <= s_order g ->
  Z.of_nat (length (generated g r)) <= s_order g * (s_order g - 1).
Proof.
  intros Hn. pose proof (length_candidates_le (s_directed g) _ Hn).
  pose proof (select_length (s_trial g) (s_rho g)
                (candidates (s_directed g) (s_order g)) r).
  unfold generated. lia.
Qed.

(** A complete first traversal of a generator whose order is an [int]: no
    panic; the table holds a row for every source vertex of a generated
    edge, the counter has gone up once per generated edge, and the step
    function has been given the generated edges in order. *)
Lemma first_traversal_full {A : Type} (f : EdgeLambda A)
  (g : stableBernoulliGraph RS) (r : RS) (a : A) (p : bool) :
  (forall e a, fst (f e a) = false) ->
  s_list g = None ->
  0 <= s_order g <= max_int ->
  stable_EachEdge f (mkRun g r a p)
  = mkRun (settled g
             (marked (s_order g) (replicate (Z.to_nat (s_order g)) None)
                     (generated g r))
             (count_up (s_size g) (length (generated g r))))
          (source_after g r) (fed f (generated g r) a) p.
Proof.
  intros Hf Hl Hn. unfold stable_EachEdge. simpl. rewrite Hl.
  rewrite make_fits by lia. rewrite creator_candidates.
  rewrite int_of_uint_small by exact Hn. unfold run_candidates.
  rewrite (first_pass_full RS f _ _ _ Hf _
             (replicate (Z.to_nat (s_order g)) None)); simpl.
  - reflexivity.
  - reflexivity.
  - exact Hn.
  - apply table_ok_fresh.
  - apply candidates_in_range.
Qed.

(** A traversal of a generator whose order is not an [int] panics before
    anything is delivered. *)
Lemma first_traversal_panics {A : Type} (f : EdgeLambda A)
  (g : stableBernoulliGraph RS) (r : RS) (a : A) (p : bool) :
  s_list g = None -> max_int < s_order g ->
  stable_EachEdge f (mkRun g r a p) = mkRun g r a true.
Proof.
  intros Hl Hn. unfold stable_EachEdge. simpl. rewrite Hl.
  rewrite make_too_long by exact Hn. reflexivity.
Qed.

(** A replay changes neither the generator nor the random source. *)
Lemma replay_keeps {A : Type} (f : EdgeLambda A) (xs : list (Z * Z))
  (w : run RS A) :
  graph (snd (deliver xs (replay_step f) w)) = graph w /\
  source (snd (deliver xs (replay_step f) w)) = source w /\
  panicked (snd (deliver xs (replay_step f) w)) = panicked w.
Proof.
  revert w. induction xs as [|c xs IH]; intros w; simpl.
  - auto.
  - unfold replay_step at 1 3 5.
    destruct (f (edge_of c) (caller w)) as [[] a1]; simpl; [auto|].
    destruct (IH (mkRun (graph w) (source w) a1 (panicked w))) as (H1 & H2 & H3).
    auto.
Qed.

Lemma replay_full {A : Type} (f : EdgeLambda A) (xs : list (Z * Z))
  (w : run RS A) :
  (forall e a, fst (f e a) = false) ->
  deliver xs (replay_step f) w
  = (false, mkRun (graph w) (source w) (fed f xs (caller w)) (panicked w)).
Proof.
  intros Hf. revert w. induction xs as [|c xs IH]; intros w; simpl.
  - destruct w; reflexivity.
  - change (fed f (c :: xs) (caller w))
      with (fed f xs (snd (f (edge_of c) (caller w)))).
    unfold replay_step at 1. pose proof (Hf (edge_of c) (caller w)) as Hc.
    destruct (f (edge_of c) (caller w)) as [stop a1].
    simpl in Hc. subst stop. rewrite IH. reflexivity.
Qed.

Lemma later_traversal_keeps {A : Type} (f : EdgeLambda A)
  (g : stableBernoulliGraph RS) (l : list row) (r : RS) (a : A) (p : bool) :
  s_list g = Some l ->
  graph (stable_EachEdge f (mkRun g r a p)) = g /\
  source (stable_EachEdge f (mkRun g r a p)) = r /\
  panicked (stable_EachEdge f (mkRun g r a p)) = p.
Proof.
  intros Hl. unfold stable_EachEdge. simpl. rewrite Hl.
  rewrite stable_replay_deliver. apply replay_keeps.
Qed.

Lemma fed_collect (sel : list (Z * Z)) (acc : list BaseEdge) :
  fed collect sel acc = acc ++ map edge_of sel.
Proof.
  revert acc. induction sel as [|c sel IH]; intros acc.
  - simpl. rewrite app_nil_r. reflexivity.
  - unfold fed in *. simpl. rewrite IH, <- app_assoc. reflexivity.
Qed.

Lemma stable_Size_first (g : stableBernoulliGraph RS) (r : RS) :
  s_list g = None ->
  0 <= s_order g <= max_int ->
  stable_Size g r
  = (Some (count_up (s_size g) (length (generated g r))),
     settled g
       (marked (s_order g) (replicate (Z.to_nat (s_order g)) None)
               (generated g r))
       (count_up (s_size g) (length (generated g r))),
     source_after g r).
Proof.
  intros Hl Hn. unfold stable_Size.
  rewrite (first_traversal_full (fun _ (a : unit) => (false, a)) g r tt false
             (fun _ _ => eq_refl) Hl Hn).
  reflexivity.
Qed.

Lemma stable_Size_later (g : stableBernoulliGraph RS) (l : list row) (r : RS) :
  s_list g = Some l -> stable_Size g r = (Some (s_size g), g, r).
Proof.
  intros Hl. unfold stable_Size.
  destruct (later_traversal_keeps (fun _ (a : unit) => (false, a)) g l r tt false Hl)
    as (H1 & H2 & H3).
  rewrite H1, H2, H3. reflexivity.
Qed.

End StableFacts.

(** ** C2 and C1: Size, and what a second traversal delivers *)

Section StableClaims.

Import GoInt Bernoulli Reference.

Variable RS : Type.

(** C2 (amended): on a stable generator that has not been traversed and
    whose order is an [int], [Size()] runs the materializing traversal (it
    leaves the generator and the random source exactly as a complete
    [EachEdge] does, with the table allocated) and returns the number of
    edges that traversal generates, as an [int] -- the exact number
    whenever n(n-1) fits an [int]; every later [Size()] returns the same
    count and no later traversal changes the generator. *)
Theorem C2_size_counts_generated_edges (g : stableBernoulliGraph RS) (r : RS) :
  s_list g = None -> s_size g = 0 -> 0 <= s_order g <= max_int ->
  let w := stable_EachEdge collect (mkRun g r [] false) in
  let count := fst (fst (stable_Size g r)) in
  let g1 := snd (fst (stable_Size g r)) in
  panicked w = false /\ NoDup (caller w) /\
  count = Some (wrap_int (Z.of_nat (length (caller w)))) /\
  (s_order g * (s_order g - 1) <= max_int ->
   count = Some (Z.of_nat (length (caller w)))) /\
  g1 = graph w /\ snd (stable_Size g r) = source w /\ s_list g1 <> None /\
  (forall r2, stable_Size g1 r2 = (count, g1, r2)) /\
  (forall (A : Type) (f : EdgeLambda A) (a : A) (r2 : RS) (p : bool),
      graph (stable_EachEdge f (mkRun g1 r2 a p)) = g1).
Proof.
  intros Hl Hz Hn w count g1. subst w count g1.
  rewrite (first_traversal_full RS collect g r [] false (fun _ _ => eq_refl) Hl Hn).
  rewrite (stable_Size_first RS g r Hl Hn). simpl.
  rewrite fed_collect, Hz, count_up_wrap. simpl. rewrite length_map.
  repeat split.
  - apply NoDup_edges, generated_NoDup.
  - intros Hfit. f_equal. apply wrap_int_small.
    pose proof (generated_length RS g r ltac:(lia)).
    unfold is_int, min_int. lia.
  - discriminate.
  - intros r2. erewrite stable_Size_later by reflexivity. reflexivity.
  - intros A f a r2 p.
    eapply (later_traversal_keeps RS f _ _ r2 a p). reflexivity.
Qed.

(** X12: what the replay of a materialized generator delivers: for every
    source vertex [u] of a generated edge, the pairs [(u, v)] for all [v] below
    the order -- the generated edges of that row, the loop [(u, u)], and
    every pair of the row whose trial failed. *)
Lemma stable_replay_walks_whole_rows (g : stableBernoulliGraph RS) (r r2 : RS) :
  s_list g = None -> 0 <= s_order g <= max_int ->
  let w1 := stable_EachEdge collect (mkRun g r [] false) in
  let w2 := stable_EachEdge collect (mkRun (graph w1) r2 [] false) in
  (forall e, e ∈ caller w2 <->
             (exists e1, e1 ∈ caller w1 /\ U e1 = U e) /\
             0 <= V e < s_order g) /\
  (forall e1, e1 ∈ caller w1 ->
              {| U := U e1; V := U e1 |} ∈ caller w2 /\
              {| U := U e1; V := U e1 |} ∉ caller w1).
Proof.
  intros Hl Hn w1 w2. subst w1 w2.
  rewrite (first_traversal_full RS collect g r [] false (fun _ _ => eq_refl) Hl Hn).
  simpl. unfold stable_EachEdge. simpl.
  rewrite stable_replay_deliver, replay_full by (intros; reflexivity).
  simpl. rewrite !fed_collect. simpl.
  assert (Hmem : forall e,
             e ∈ map edge_of
                   (replay_pairs
                      (marked (s_order g) (replicate (Z.to_nat (s_order g)) None)
                              (generated g r)))
             <-> (exists e1, e1 ∈ map edge_of (generated g r) /\ U e1 = U e) /\
                 0 <= V e < s_order g).
  { intros e. rewrite elem_of_edges.
    rewrite elem_of_replay_marked by (try apply generated_in_range; lia).
    split.
    - intros [Hs Hv]. split; [|exact Hv].
      apply list_elem_of_fmap in Hs. destruct Hs as (c & Hc & Hin).
      exists (edge_of c). split; [|symmetry; exact Hc].
      apply list_elem_of_fmap. eauto.
    - intros [(e1 & He1 & HU) Hv]. split; [|exact Hv].
      apply elem_of_edges in He1. rewrite <- HU.
      apply list_elem_of_fmap. exists (U e1, V e1). auto. }
  split; [exact Hmem|].
  intros e1 He1. split.
  - apply Hmem. simpl. split; [eauto|].
    apply elem_of_edges in He1.
    pose proof (generated_in_range RS g r) as Hr.
    rewrite Forall_forall in Hr. apply Hr in He1. simpl in He1. lia.
  - intros Hloop. apply elem_of_edges in Hloop. simpl in Hloop.
    exact (generated_no_loop RS g r _ Hloop).
Qed.

End StableClaims.

(** *** The claims at concrete generators

    The generators below come from [BernoulliDistribution] with a scripted
    random source; ρ is 0.5, so a draw of 0.25 is a success and a draw of
    0.75 a failure. *)

(** C2 at three vertices, undirected, with draws 0.25, 0.75, 0.25: the
    pairs (0,1) and (1,2) are generated and [Size()] is 2, now and later. *)
Lemma C2_three_vertices :
  let g := Bernoulli.mkStable (RS := Reference.scripted) 3 0.5%float
             (fun rho r => let '(x, r') := Reference.scripted_Float64 r in
                           ((x <? rho)%float, r'))
             0 false None in
  let r := [0.25; 0.75; 0.25]%float in
  (0 <= 3 <= GoInt.max_int) /\
  Bernoulli.caller (Bernoulli.stable_EachEdge Reference.collect
                      (Bernoulli.mkRun g r [] false))
  = [Bernoulli.mkEdge 0 1; Bernoulli.mkEdge 1 2] /\
  fst (fst (Bernoulli.stable_Size g r)) = Some 2 /\
  (forall r2, fst (fst (Bernoulli.stable_Size
                          (snd (fst (Bernoulli.stable_Size g r))) r2)) = Some 2).
Proof.
  intros g r.
  assert (Hr : 0 <= 3 <= GoInt.max_int) by (unfold GoInt.max_int; lia).
  destruct (C2_size_counts_generated_edges Reference.scripted g r
              eq_refl eq_refl Hr) as (_ & _ & Hc & _ & _ & _ & _ & Hlater & _).
  assert (Hw : Bernoulli.caller (Bernoulli.stable_EachEdge Reference.collect
                                   (Bernoulli.mkRun g r [] false))
               = [Bernoulli.mkEdge 0 1; Bernoulli.mkEdge 1 2])
    by (vm_compute; reflexivity).
  rewrite Hw in Hc. simpl length in Hc.
  change (GoInt.wrap_int (Z.of_nat 2)) with 2 in Hc.
  split; [exact Hr|]. split; [exact Hw|]. split; [exact Hc|].
  intros r2. rewrite Hlater. exact Hc.
Defined.

(** C2 as stated fails for an order that is not an [int]: with [n = 2^63]
    the allocation of the table panics, so [Size()] returns nothing. *)
Lemma C2_size_panics_beyond_int :
  match Bernoulli.BernoulliDistribution Reference.scripted
          Reference.scripted_Float64 (2 ^ 63) 0.5%float false true None with
  | Bernoulli.Returned (Bernoulli.Stable sg) =>
      Bernoulli.s_list sg = None /\ Bernoulli.s_size sg = 0 /\
      fst (fst (Bernoulli.stable_Size sg [])) = None
  | _ => False
  end.
Proof. vm_compute. auto. Qed.

(** C1 fails on the code.  Three vertices, undirected, draws 0.25, 0.75,
    0.75: the first traversal generates the single edge (0,1) and counts
    1; the second traversal delivers (0,0), (0,1) and (0,2), because a row
    of empty structs records that vertex 0 has an edge but not to which
    vertex. *)
Lemma C1_replay_delivers_other_edges :
  match Bernoulli.BernoulliDistribution Reference.scripted
          Reference.scripted_Float64 3 0.5%float false true None with
  | Bernoulli.Returned (Bernoulli.Stable sg) =>
      let w1 := Bernoulli.stable_EachEdge Reference.collect
                  (Bernoulli.mkRun sg [0.25; 0.75; 0.75]%float [] false) in
      let w2 := Bernoulli.stable_EachEdge Reference.collect
                  (Bernoulli.mkRun (Bernoulli.graph w1) (Bernoulli.source w1)
                                   [] false) in
      Bernoulli.caller w1 = [Bernoulli.mkEdge 0 1] /\
      Bernoulli.s_size (Bernoulli.graph w1) = 1 /\
      Bernoulli.s_list (Bernoulli.graph w1) = Some [Some [tt; tt; tt]; None; None] /\
      Bernoulli.caller w2
      = [Bernoulli.mkEdge 0 0; Bernoulli.mkEdge 0 1; Bernoulli.mkEdge 0 2] /\
      Bernoulli.panicked w1 = false /\ Bernoulli.panicked w2 = false
  | _ => False
  end.
Proof. vm_compute. repeat split. Qed.

(** C9 fails on the code, by the defect of C1.  Three vertices, undirected,
    draws 0.25, 0.75, 0.25: the first traversal generates the edges (0,1)
    and (1,2), each delivered once, and allocates rows 0 and 1; the second
    traversal walks both rows whole and delivers (0,1) from row 0 and (1,0)
    from row 1 -- one undirected edge, handed to the step function twice
    within one call. *)
Lemma C9_replay_delivers_an_edge_twice :
  match Bernoulli.BernoulliDistribution Reference.scripted
          Reference.scripted_Float64 3 0.5%float false true None with
  | Bernoulli.Returned (Bernoulli.Stable sg) =>
      let w1 := Bernoulli.stable_EachEdge (logged Reference.go_on)
                  (Bernoulli.mkRun sg [0.25; 0.75; 0.25]%float (tt, []) false) in
      let w2 := Bernoulli.stable_EachEdge (logged Reference.go_on)
                  (Bernoulli.mkRun (Bernoulli.graph w1) (Bernoulli.source w1)
                                   (tt, []) false) in
      Bernoulli.s_directed sg = false /\
      delivered (Reference.run_log w1)
      = [Bernoulli.mkEdge 0 1; Bernoulli.mkEdge 1 2] /\
      Reference.edges_well_delivered false (Reference.run_log w1) /\
      delivered (Reference.run_log w2)
      = [Bernoulli.mkEdge 0 0; Bernoulli.mkEdge 0 1; Bernoulli.mkEdge 0 2;
         Bernoulli.mkEdge 1 0; Bernoulli.mkEdge 1 1; Bernoulli.mkEdge 1 2] /\
      Reference.edge_key false (Bernoulli.mkEdge 0 1)
      = Reference.edge_key false (Bernoulli.mkEdge 1 0) /\
      ~ Reference.edges_well_delivered false (Reference.run_log w2)
  | _ => False
  end.
Proof.
  cbv beta iota zeta delta [Bernoulli.BernoulliDistribution].
  change ((0.5 <? 0)%float) with false. change ((1 <=? 0.5)%float) with false.
  cbv beta iota.
  split; [reflexivity|]. split; [vm_compute; reflexivity|].
  split; [|split; [vm_compute; reflexivity|split; [reflexivity|]]].
  - split.
    + intros i x H. vm_compute in H.
      destruct i as [|[|[|i]]]; discriminate H.
    + apply (bool_decide_unpack _). vm_compute. exact I.
  - intros [_ H]. revert H.
    apply (proj1 (bool_decide_eq_false _)). vm_compute. reflexivity.
Qed.

(** ** C5: Size of the unstable generator *)

Section UnstableSizeFacts.

Import GoInt Bernoulli Reference.

(** [int(f)] is the rational value of [f] with the fraction cut off, when
    that fits an [int]. *)
Lemma to_int_truncates (f : float) (q : Q) :
  GoFloat.to_Q f = Some q ->
  min_int <= Z.quot (Qnum q) (Z.pos (Qden q)) <= max_int ->
  GoFloat.to_int f = Z.quot (Qnum q) (Z.pos (Qden q)).
Proof.
  unfold GoFloat.to_Q, GoFloat.to_int.
  destruct (Prim2SF f) as [s|s| |s m e]; try discriminate.
  - intros [= <-] _. reflexivity.
  - destruct (Z.leb_spec 0 e) as [He|He]; intros [= <-].
    + destruct s; simpl Qnum; simpl Qden; rewrite Z.quot_1_r; intros Hr.
      * destruct (Z.leb_spec min_int (- Z.shiftl (Z.pos m) e)); [|lia].
        destruct (Z.leb_spec (- Z.shiftl (Z.pos m) e) max_int); [|lia].
        reflexivity.
      * destruct (Z.leb_spec min_int (Z.shiftl (Z.pos m) e)); [|lia].
        destruct (Z.leb_spec (Z.shiftl (Z.pos m) e) max_int); [|lia].
        reflexivity.
    + assert (Hpow : 0 < 2 ^ (- e)) by (apply Z.pow_pos_nonneg; lia).
      assert (Hden : Z.pos (Z.to_pos (2 ^ (- e))) = 2 ^ (- e))
        by (apply Z2Pos.id; exact Hpow).
      assert (Hmag : Z.shiftr (Z.pos m) (- e) = Z.quot (Z.pos m) (2 ^ (- e))).
      { rewrite Z.shiftr_div_pow2 by lia.
        symmetry. apply Z.quot_div_nonneg; lia. }
      destruct s; simpl Qnum; simpl Qden; rewrite Hden, Hmag.
      * change (Z.neg m) with (- Z.pos m). rewrite Z.quot_opp_l by lia.
        intros Hr.
        destruct (Z.leb_spec min_int (- (Z.pos m ÷ 2 ^ (- e)))); [|lia].
        destruct (Z.leb_spec (- (Z.pos m ÷ 2 ^ (- e))) max_int); [|lia].
        reflexivity.
      * intros Hr.
        destruct (Z.leb_spec min_int (Z.pos m ÷ 2 ^ (- e))); [|lia].
        destruct (Z.leb_spec (Z.pos m ÷ 2 ^ (- e)) max_int); [|lia].
        reflexivity.
Qed.

Variable RS : Type.

(** C5 (amended): for an order n with n(n-1) within [int], [Size()] of an
    unstable generator is computed from n, the directedness and ρ alone:
    it is [int(float64(c) * ρ)], where c is the number of candidate pairs
    -- n(n-1) directed, n(n-1)/2 undirected -- the product is the binary64
    product, and the conversion to [int] cuts off its fraction. *)
Theorem C5_size_is_truncated_product (g : unstableBernoulliGraph RS) :
  0 <= u_order g -> u_order g * (u_order g - 1) <= max_int ->
  let n := u_order g in
  let pairs := Z.of_nat (length (candidates (u_directed g) n)) in
  let product := (GoFloat.of_int pairs * u_rho g)%float in
  pairs = (if u_directed g then n * (n - 1) else n * (n - 1) / 2) /\
  unstable_Size g = GoFloat.to_int product /\
  (forall q, GoFloat.to_Q product = Some q ->
             min_int <= Z.quot (Qnum q) (Z.pos (Qden q)) <= max_int ->
             unstable_Size g = Z.quot (Qnum q) (Z.pos (Qden q))).
Proof.
  intros Hn Hfit n pairs product.
  assert (Hpairs : pairs = if u_directed g then n * (n - 1) else n * (n - 1) / 2)
    by (apply length_candidates; exact Hn).
  assert (Hsize : unstable_Size g = GoFloat.to_int product).
  { unfold unstable_Size, product. rewrite Hpairs. fold n.
    assert (Hle : n <= max_int) by (unfold max_int in *; nia).
    rewrite int_of_uint_small by lia.
    unfold int_sub, int_mul, int_div.
    rewrite (wrap_int_small (n - 1)) by (unfold is_int, min_int; lia).
    rewrite (wrap_int_small (n * (n - 1))) by (unfold is_int, min_int; nia).
    destruct (u_directed g); simpl negb; cbv iota; [reflexivity|].
    rewrite Z.quot_div_nonneg by nia.
    rewrite wrap_int_small; [reflexivity|].
    unfold is_int, min_int.
    assert (0 <= n * (n - 1) / 2 <= n * (n - 1)); [|lia].
    split; [apply Z.div_pos; nia | apply Z.div_le_upper_bound; nia]. }
  split; [exact Hpairs|]. split; [exact Hsize|].
  intros q Hq Hr. rewrite Hsize. apply to_int_truncates; assumption.
Qed.

End UnstableSizeFacts.

(** C5 at three vertices, undirected, ρ = 0.5: three candidate pairs, the
    product is 1.5 and [Size()] is 1. *)
Lemma C5_three_vertices :
  let g := Bernoulli.mkUnstable (RS := Reference.scripted) 3 0.5%float
             (fun _ r => (false, r)) false in
  (0 <= 3 /\ 3 * (3 - 1) <= GoInt.max_int) /\
  Bernoulli.unstable_Size g = 1 /\
  option_map Qred (GoFloat.to_Q (GoFloat.of_int 3 * 0.5)%float) = Some (3 # 2).
Proof.
  intros g.
  assert (H0 : 0 <= 3) by lia.
  assert (H1 : 3 * (3 - 1) <= GoInt.max_int) by (unfold GoInt.max_int; lia).
  destruct (C5_size_is_truncated_product Reference.scripted g H0 H1)
    as (_ & Hsize & _).
  split; [split; assumption|]. split.
  - rewrite Hsize. vm_compute. reflexivity.
  - vm_compute. reflexivity.
Defined.

(** C5 as stated fails: at three vertices, undirected, ρ = 0.5 the expected
    count C(3,2)·ρ is 3/2, and [Size()], an [int], is 1. *)
Lemma C5_size_is_not_the_rational :
  let g := Bernoulli.mkUnstable (RS := Reference.scripted) 3 0.5%float
             (fun _ r => (false, r)) false in
  option_map Qred (GoFloat.to_Q (Bernoulli.u_rho g)) = Some (1 # 2) /\
  Qeq_bool (Reference.expected_size false 3 (1 # 2)) (3 # 2) = true /\
  Bernoulli.unstable_Size g = 1 /\
  Qeq_bool (inject_Z (Bernoulli.unstable_Size g))
           (Reference.expected_size false 3 (1 # 2)) = false.
Proof. vm_compute. repeat split. Qed.

(** * Further properties of the code *)

(** ** The builder: how its methods compose *)

Section FluentFacts.

Import Builder Fluent.

Variable GraphSource : Type.

Lemma run_step (m : method) (b : GraphSpec GraphSource) :
  run m b = {| Props := step m (Props b); Source := Source b |}.
Proof. destruct m; reflexivity. Qed.

(** A clear-then-set step, then a mask or its complement: decided bit by
    bit, hence by the all-zeros and all-ones inputs. *)
Lemma masked_step_bitwise (p c v mask : Z) :
  Z.land (Z.lor (Z.ldiff 0 c) v) mask = Z.land 0 mask ->
  Z.land (Z.lor (Z.ldiff (-1) c) v) mask = Z.land (-1) mask ->
  Z.land (Z.lor (Z.ldiff p c) v) mask = Z.land p mask.
Proof.
  intros H0 H1. apply Z.bits_inj'. intros n Hn.
  apply (f_equal (fun z => Z.testbit z n)) in H0, H1.
  rewrite Z.land_spec, Z.lor_spec, Z.ldiff_spec, Z.land_spec in H0, H1 |- *.
  rewrite Z.bits_0 in H0. rewrite Z.bits_m1 in H1 by assumption.
  destruct (Z.testbit p n); assumption.
Qed.

Lemma unmasked_step_bitwise (p c v mask : Z) :
  Z.ldiff (Z.lor (Z.ldiff 0 c) v) mask = Z.ldiff 0 mask ->
  Z.ldiff (Z.lor (Z.ldiff (-1) c) v) mask = Z.ldiff (-1) mask ->
  Z.ldiff (Z.lor (Z.ldiff p c) v) mask = Z.ldiff p mask.
Proof.
  intros H0 H1. apply Z.bits_inj'. intros n Hn.
  apply (f_equal (fun z => Z.testbit z n)) in H0, H1.
  rewrite Z.ldiff_spec, Z.lor_spec, Z.ldiff_spec, Z.ldiff_spec in H0, H1 |- *.
  rewrite Z.bits_0 in H0. rewrite Z.bits_m1 in H1 by assumption.
  destruct (Z.testbit p n); assumption.
Qed.

Lemma swapped_steps_bitwise (p c1 v1 c2 v2 : Z) :
  Z.lor (Z.ldiff (Z.lor (Z.ldiff 0 c1) v1) c2) v2
  = Z.lor (Z.ldiff (Z.lor (Z.ldiff 0 c2) v2) c1) v1 ->
  Z.lor (Z.ldiff (Z.lor (Z.ldiff (-1) c1) v1) c2) v2
  = Z.lor (Z.ldiff (Z.lor (Z.ldiff (-1) c2) v2) c1) v1 ->
  Z.lor (Z.ldiff (Z.lor (Z.ldiff p c1) v1) c2) v2
  = Z.lor (Z.ldiff (Z.lor (Z.ldiff p c2) v2) c1) v1.
Proof.
  intros H0 H1. apply Z.bits_inj'. intros n Hn.
  apply (f_equal (fun z => Z.testbit z n)) in H0, H1.
  rewrite Z.lor_spec, Z.ldiff_spec, Z.lor_spec, Z.ldiff_spec,
    Z.lor_spec, Z.ldiff_spec, Z.lor_spec, Z.ldiff_spec in H0, H1 |- *.
  rewrite Z.bits_0 in H0. rewrite Z.bits_m1 in H1 by assumption.
  destruct (Z.testbit p n); assumption.
Qed.

(** X1: calling a builder method twice in a row gives the same spec as
    calling it once, for every method and every spec. *)
Theorem X1_method_twice_is_method_once (m : method) (b : GraphSpec GraphSource) :
  run m (run m b) = run m b.
Proof.
  rewrite !run_step. simpl. f_equal. unfold step, or_in, and_not.
  apply Z.bits_inj'. intros n Hn.
  rewrite Z.lor_spec, Z.ldiff_spec, Z.lor_spec, Z.ldiff_spec.
  destruct (Z.testbit (Props b) n), (Z.testbit (cleared_by m) n),
    (Z.testbit (value_of m) n); reflexivity.
Qed.

(** X2: a builder method changes nothing outside its own axis: the bits of
    [Props] outside the axis, what is active on each of the other three
    axes, and the source are as before. *)
Theorem X2_method_keeps_other_axes (m : method) (b : GraphSpec GraphSource) :
  Z.ldiff (Props (run m b)) (axis_mask (axis_of m))
  = Z.ldiff (Props b) (axis_mask (axis_of m)) /\
  (forall a, a <> axis_of m ->
             active_on a (Props (run m b)) = active_on a (Props b)) /\
  Source (run m b) = Source b.
Proof.
  rewrite run_step. simpl. unfold step, or_in, and_not, active_on.
  split; [|split; [|reflexivity]].
  - destruct m; apply unmasked_step_bitwise; reflexivity.
  - intros a Ha.
    destruct m, a; try (exfalso; apply Ha; reflexivity);
      apply masked_step_bitwise; reflexivity.
Qed.

(** X3: two builder methods of different axes commute. *)
Theorem X3_methods_of_different_axes_commute (m1 m2 : method)
  (b : GraphSpec GraphSource) :
  axis_of m1 <> axis_of m2 -> run m1 (run m2 b) = run m2 (run m1 b).
Proof.
  intros Hax. rewrite !run_step. simpl. f_equal. unfold step, or_in, and_not.
  destruct m1, m2; try (exfalso; apply Hax; reflexivity);
    apply swapped_steps_bitwise; reflexivity.
Qed.

Lemma well_formed_closed :
  forallb (fun p => implb (well_formed p)
                      (forallb (fun m => well_formed (step m p)) all_methods))
          (seqZ 0 (Z.shiftl 1 11)) = true.
Proof. vm_compute. reflexivity. Qed.

Lemma well_formed_step (m : method) (p : GraphProperties) :
  well_formed p = true -> well_formed (step m p) = true.
Proof.
  intros Hp. pose proof well_formed_closed as Hc.
  rewrite forallb_forall in Hc. specialize (Hc p).
  assert (Hin : In p (seqZ 0 (Z.shiftl 1 11))).
  { apply list_elem_of_In, elem_of_seqZ.
    unfold well_formed in Hp. rewrite !andb_true_iff in Hp.
    destruct Hp as [[[[[H0 H1] _] _] _] _].
    apply Z.leb_le in H0. apply Z.ltb_lt in H1. lia. }
  specialize (Hc Hin). rewrite Hp in Hc. cbn [implb] in Hc.
  rewrite forallb_forall in Hc. apply Hc.
  destruct m; simpl; tauto.
Qed.

(** X4: whatever methods are chained after [Spec()], the resulting
    properties are well formed -- exactly one of undirected and directed;
    basic iff none of labeled, weighted, data; simple iff neither loops
    nor parallel; exactly one of mutable and immutable -- and the source is
    still nil. *)
Theorem X4_built_specs_are_well_formed (ms : list method) :
  well_formed (Props (build (GraphSource := GraphSource) ms)) = true /\
  Source (build (GraphSource := GraphSource) ms) = None.
Proof.
  unfold build.
  assert (H : forall b : GraphSpec GraphSource,
             well_formed (Props b) = true /\ Source b = None ->
             well_formed (Props (foldl (fun b m => run m b) b ms)) = true /\
             Source (foldl (fun b m => run m b) b ms) = None).
  { induction ms as [|m ms IH]; intros b Hb; [exact Hb|].
    simpl. apply IH. rewrite run_step. simpl. destruct Hb as [Hw Hs].
    split; [apply well_formed_step; exact Hw | exact Hs]. }
  apply H. split; reflexivity.
Qed.

End FluentFacts.

(** X3 at [Spec().Weighted().Directed()] and [Spec().Directed().Weighted()]. *)
Lemma X3_directed_weighted :
  Builder.axis_of Builder.MDirected <> Builder.axis_of Builder.MWeighted /\
  Builder.Directed unit (Builder.Weighted unit Builder.Spec)
  = Builder.Weighted unit (Builder.Directed unit Builder.Spec).
Proof.
  assert (H : Builder.axis_of Builder.MDirected
              <> Builder.axis_of Builder.MWeighted) by (simpl; discriminate).
  split; [exact H|].
  exact (X3_methods_of_different_axes_commute unit Builder.MDirected
           Builder.MWeighted Builder.Spec H).
Defined.

(** ** The earlier builder revision: flags that are never cleared *)

Section BuildGraphMethodFacts.

Import BuildGraphRevision BuildGraphMethods.

Lemma land_lor_keep (p v F : Z) :
  Z.land p F = F -> Z.land (Z.lor p v) F = F.
Proof.
  intros H. apply Z.bits_inj'. intros n Hn.
  apply (f_equal (fun z => Z.testbit z n)) in H.
  rewrite Z.land_spec in H. rewrite Z.land_spec, Z.lor_spec.
  destruct (Z.testbit p n), (Z.testbit v n), (Z.testbit F n);
    simpl in *; congruence.
Qed.

Lemma land_lor_set (p F : Z) : Z.land (Z.lor p F) F = F.
Proof.
  apply Z.bits_inj'. intros n Hn. rewrite Z.land_spec, Z.lor_spec.
  destruct (Z.testbit p n), (Z.testbit F n); reflexivity.
Qed.

Lemma land_ldiff_keep (p c F : Z) :
  Z.land p F = F -> Z.land F c = 0 -> Z.land (Z.ldiff p c) F = F.
Proof.
  intros H Hc. apply Z.bits_inj'. intros n Hn.
  apply (f_equal (fun z => Z.testbit z n)) in H, Hc.
  rewrite Z.land_spec in H, Hc. rewrite Z.bits_0 in Hc.
  rewrite Z.land_spec, Z.ldiff_spec.
  destruct (Z.testbit p n), (Z.testbit c n), (Z.testbit F n);
    simpl in *; congruence.
Qed.

Variables G_UNDIRECTED G_DIRECTED G_LABELED G_WEIGHTED G_DATA
          G_LOOPS G_MULTI : Z.
Variable GraphSource : Type.

Abbreviation run' :=
  (run G_UNDIRECTED G_DIRECTED G_LABELED G_WEIGHTED G_DATA G_LOOPS G_MULTI
       GraphSource).
Abbreviation build' :=
  (build G_UNDIRECTED G_DIRECTED G_LABELED G_WEIGHTED G_DATA G_LOOPS G_MULTI
         GraphSource).

(** A flag that shares no bit with the two masks that [BasicEdges] and
    [SimpleGraph] clear stays set under every method. *)
Lemma legacy_flag_stays (F : Z) (m : method) (b : GraphSpec GraphSource) :
  Z.land F (Z.lor (Z.lor G_LABELED G_WEIGHTED) G_DATA) = 0 ->
  Z.land F (Z.lor G_LOOPS G_MULTI) = 0 ->
  Z.land (Props _ b) F = F -> Z.land (Props _ (run' m b)) F = F.
Proof.
  intros H1 H2 Hb.
  destruct m; simpl;
    first [ apply land_lor_keep; exact Hb
          | apply land_ldiff_keep; assumption ].
Qed.

Lemma legacy_flag_stays_all (F : Z) (ms : list method) :
  Z.land F (Z.lor (Z.lor G_LABELED G_WEIGHTED) G_DATA) = 0 ->
  Z.land F (Z.lor G_LOOPS G_MULTI) = 0 ->
  forall b : GraphSpec GraphSource,
    Z.land (Props _ b) F = F ->
    Z.land (Props _ (foldl (fun b m => run' m b) b ms)) F = F.
Proof.
  intros H1 H2. induction ms as [|m ms IH]; intros b Hb; [exact Hb|].
  simpl. apply IH. apply legacy_flag_stays; assumption.
Qed.

(** X5: in the [BuildGraph] revision, when the two direction flags share
    no bit with the flags that [BasicEdges] and [SimpleGraph] clear, every
    spec built from [BuildGraph()] has the undirected flag set, and has
    the directed flag set as well once [Directed()] is among the calls:
    no method of that revision clears a direction. *)
Theorem X5_legacy_direction_is_never_cleared (ms : list method) :
  Z.land G_UNDIRECTED (Z.lor (Z.lor G_LABELED G_WEIGHTED) G_DATA) = 0 ->
  Z.land G_UNDIRECTED (Z.lor G_LOOPS G_MULTI) = 0 ->
  Z.land G_DIRECTED (Z.lor (Z.lor G_LABELED G_WEIGHTED) G_DATA) = 0 ->
  Z.land G_DIRECTED (Z.lor G_LOOPS G_MULTI) = 0 ->
  Z.land (Props _ (build' ms)) G_UNDIRECTED = G_UNDIRECTED /\
  (LDirected ∈ ms -> Z.land (Props _ (build' ms)) G_DIRECTED = G_DIRECTED).
Proof.
  intros HU1 HU2 HD1 HD2. unfold build. split.
  - apply legacy_flag_stays_all; try assumption. simpl. apply Z.land_diag.
  - generalize (BuildGraph G_UNDIRECTED GraphSource).
    induction ms as [|m ms IH]; intros b Hin.
    + apply elem_of_nil in Hin. contradiction.
    + apply elem_of_cons in Hin. simpl. destruct Hin as [<-|Hin].
      * apply legacy_flag_stays_all; try assumption.
        simpl. apply land_lor_set.
      * apply IH. exact Hin.
Qed.

End BuildGraphMethodFacts.

(** X5 with the flags at the values of the current constant block (and
    256 for [G_MULTI]): [BuildGraph().Directed().SimpleGraph()] is both
    undirected and directed. *)
Lemma X5_build_directed_simple :
  let ms := [BuildGraphMethods.LDirected; BuildGraphMethods.LSimpleGraph] in
  let p := BuildGraphRevision.Props unit
             (BuildGraphMethods.build 1 2 8 16 32 128 256 unit ms) in
  Z.land 1 (Z.lor (Z.lor 8 16) 32) = 0 /\ Z.land 1 (Z.lor 128 256) = 0 /\
  Z.land 2 (Z.lor (Z.lor 8 16) 32) = 0 /\ Z.land 2 (Z.lor 128 256) = 0 /\
  Z.land p 1 = 1 /\ Z.land p 2 = 2.
Proof.
  intros ms p.
  destruct (X5_legacy_direction_is_never_cleared 1 2 8 16 32 128 256 unit ms
              eq_refl eq_refl eq_refl eq_refl) as [HU HD].
  split; [reflexivity|]. split; [reflexivity|]. split; [reflexivity|].
  split; [reflexivity|]. split; [exact HU|]. apply HD. left.
Defined.

(** ** The unstable generator: a complete traversal *)

Section UnstableTraversalFacts.

Import GoInt Bernoulli Reference.

Variable RS : Type.

Lemma unstable_pass_full {A : Type} (f : EdgeLambda A) (rho : float)
  (t : bTrial RS) (cands : list (Z * Z)) :
  (forall e a, fst (f e a) = false) ->
  forall (r : RS) (a : A),
    deliver cands (trial_then_emit (unstable_el f) rho (unstable_trial t)) (r, a)
    = (false, (snd (select t rho cands r), fed f (fst (select t rho cands r)) a)).
Proof.
  intros Hf. induction cands as [|c cands IH]; intros r a.
  - reflexivity.
  - simpl. unfold trial_then_emit at 1, unstable_trial at 1. simpl.
    destruct (t rho r) as [hit r1]. destruct hit.
    + unfold unstable_el at 1. simpl.
      pose proof (Hf (edge_of c) a) as Hc.
      destruct (f (edge_of c) a) as [stop a1] eqn:Ef. simpl in Hc. subst stop.
      rewrite IH. destruct (select t rho cands r1) as [sel r2]. simpl.
      unfold fed. simpl. rewrite Ef. reflexivity.
    + rewrite IH. destruct (select t rho cands r1) as [sel r2]. reflexivity.
Qed.

(** When no trial succeeds the step function is never called, whatever it
    is. *)
Lemma unstable_pass_barren {A : Type} (f : EdgeLambda A) (rho : float)
  (t : bTrial RS) (cands : list (Z * Z)) :
  (forall r, fst (t rho r) = false) ->
  forall (r : RS) (a : A),
    snd (snd (deliver cands
                (trial_then_emit (unstable_el f) rho (unstable_trial t)) (r, a)))
    = a.
Proof.
  intros Ht. induction cands as [|c cands IH]; intros r a.
  - reflexivity.
  - simpl. unfold trial_then_emit at 1, unstable_trial at 1. simpl.
    pose proof (Ht r) as Hr. destruct (t rho r) as [hit r1]. simpl in Hr.
    subst hit. apply IH.
Qed.

(** X6: a complete [EachEdge] of an unstable generator (the step function
    never terminates) runs the trials of all candidate pairs in order,
    hands the step function exactly the pairs whose trial succeeded, in
    that order, and leaves the random source as those trials leave it. *)
Theorem X6_unstable_traversal_delivers_the_successes {A : Type}
  (g : unstableBernoulliGraph RS) (f : EdgeLambda A) (r : RS) (a : A) :
  (forall e a, fst (f e a) = false) ->
  let cands := candidates (u_directed g) (int_of_uint (u_order g)) in
  let hits := fst (select (u_trial g) (u_rho g) cands r) in
  unstable_EachEdge g f (r, a)
  = (snd (select (u_trial g) (u_rho g) cands r), fed f hits a) /\
  unstable_EachEdge g collect (r, [])
  = (snd (select (u_trial g) (u_rho g) cands r), map edge_of hits) /\
  sublist hits cands.
Proof.
  intros Hf cands hits. unfold unstable_EachEdge.
  rewrite !creator_candidates. unfold run_candidates.
  rewrite (unstable_pass_full f _ _ _ Hf).
  rewrite (unstable_pass_full collect _ _ _ (fun _ _ => eq_refl)).
  rewrite fed_collect. simpl. repeat split. apply select_sublist.
Qed.

End UnstableTraversalFacts.

(** X6 at three vertices, directed, with draws 0.75, 0.25, 0.25, 0.75,
    0.75, 0.25: the arcs (0,2), (1,0) and (2,1). *)
Lemma X6_three_vertices :
  let g := Bernoulli.mkUnstable (RS := Reference.scripted) 3 0.5%float
             (fun rho r => let '(x, r') := Reference.scripted_Float64 r in
                           ((x <? rho)%float, r'))
             true in
  Bernoulli.unstable_EachEdge g Reference.collect
    ([0.75; 0.25; 0.25; 0.75; 0.75; 0.25; 0.125]%float, [])
  = ([0.125]%float,
     [Bernoulli.mkEdge 0 2; Bernoulli.mkEdge 1 0; Bernoulli.mkEdge 2 1]).
Proof.
  intros g.
  destruct (X6_unstable_traversal_delivers_the_successes Reference.scripted g
              Reference.collect
              [0.75; 0.25; 0.25; 0.75; 0.75; 0.25; 0.125]%float []
              (fun _ _ => eq_refl)) as (_ & E & _).
  refine (eq_trans E _). vm_compute. reflexivity.
Defined.

(** ** The stable generator: any step function *)

Section StableAnyStepFacts.

Import GoInt Bernoulli Reference.

Variable RS : Type.

Lemma replay_logged_prefix {A : Type} (f : EdgeLambda A) (xs : list (Z * Z)) :
  forall w : run RS (A * list (BaseEdge * bool)),
    exists k,
      delivered (run_log (snd (deliver xs (replay_step (logged f)) w)))
      = delivered (run_log w) ++ map edge_of (take k xs).
Proof.
  induction xs as [|c xs IH]; intros w.
  - exists O. simpl. rewrite app_nil_r. reflexivity.
  - simpl. unfold replay_step at 1, logged at 1. simpl.
    destruct (f (edge_of c) (fst (caller w))) as [stop a1]. destruct stop.
    + exists 1%nat. unfold run_log, delivered. simpl.
      rewrite map_app. reflexivity.
    + destruct (IH (mkRun (graph w) (source w)
                          (a1, snd (caller w) ++ [(edge_of c, false)])
                          (panicked w))) as [k Hk].
      exists (S k). rewrite Hk. unfold run_log, delivered. simpl.
      rewrite map_app, <- app_assoc. reflexivity.
Qed.

(** X7: once the table of a stable generator is allocated, [EachEdge]
    runs no trial and changes nothing: the generator and the random source
    are as before, and what is delivered is an initial part of the pairs
    of the table in row order (all of them unless the step function
    terminates). *)
Theorem X7_replay_draws_nothing {A : Type} (g : stableBernoulliGraph RS)
  (l : list row) (f : EdgeLambda A) (r : RS) (a : A) (p : bool) :
  s_list g = Some l ->
  let w := stable_EachEdge (logged f) (mkRun g r (a, []) p) in
  graph w = g /\ source w = r /\ panicked w = p /\
  exists k, delivered (run_log w) = map edge_of (take k (replay_pairs l)).
Proof.
  intros Hl w.
  destruct (later_traversal_keeps RS (logged f) g l r (a, []) p Hl)
    as (H1 & H2 & H3).
  repeat split; try assumption.
  subst w. unfold stable_EachEdge. simpl. rewrite Hl.
  rewrite stable_replay_deliver.
  destruct (replay_logged_prefix f (replay_pairs l) (mkRun g r (a, []) p))
    as [k Hk].
  exists k. rewrite Hk. reflexivity.
Qed.

(** The first pass with a step function that may terminate it: no panic,
    the table stays a table, and the counter goes up by the number of
    edges delivered. *)
Lemma first_pass_counts {A : Type} (f : EdgeLambda A) (rho : float)
  (t : bTrial RS) (cands : list (Z * Z)) :
  forall (w : run RS (A * list (BaseEdge * bool))) (l : list row),
    s_list (graph w) = Some l ->
    0 <= s_order (graph w) <= max_int ->
    table_ok (s_order (graph w)) l ->
    Forall (fun c => 0 <= fst c < s_order (graph w) /\
                     0 <= snd c < s_order (graph w)) cands ->
    forall ret w',
      deliver cands
        (trial_then_emit (stable_ff (logged f)) rho (stable_trial t)) w
      = (ret, w') ->
      panicked w' = panicked w /\
      (exists l', s_list (graph w') = Some l') /\
      exists k, length (run_log w') = (length (run_log w) + k)%nat /\
                s_size (graph w') = count_up (s_size (graph w)) k.
Proof.
  induction cands as [|c cands IH]; intros w l Hl Hn Hok Hin ret w' Hd.
  - injection Hd as <- <-. split; [reflexivity|]. split; [eauto|].
    exists O. split; [lia | reflexivity].
  - apply Forall_cons in Hin. destruct Hin as [[Hu Hv] Hin].
    simpl in Hd. unfold trial_then_emit at 1, stable_trial at 1 in Hd.
    destruct (t rho (source w)) as [hit r1]. destruct hit.
    + unfold stable_ff at 1 in Hd. simpl in Hd.
      rewrite (record_edge_ok RS _ l c Hl Hn Hok Hu Hv) in Hd.
      unfold logged at 1 in Hd. simpl in Hd.
      destruct (f (edge_of c) (fst (caller w))) as [stop a1]. destruct stop.
      * injection Hd as <- <-. simpl.
        split; [reflexivity|]. split; [eexists; reflexivity|].
        exists 1%nat. unfold run_log. simpl. rewrite length_app. simpl.
        split; reflexivity.
      * apply (IH _ (<[Z.to_nat (fst c) :=
                         Some (replicate (Z.to_nat (s_order (graph w))) tt)]> l))
          in Hd; simpl; try assumption; try reflexivity.
        -- destruct Hd as (Hp & Hl' & k & Hk & Hs). simpl in Hp, Hk, Hs.
           split; [exact Hp|]. split; [exact Hl'|].
           exists (S k). split.
           ++ rewrite Hk. unfold run_log. simpl. rewrite length_app. simpl. lia.
           ++ rewrite Hs. apply count_up_succ_r.
        -- apply table_ok_mark. exact Hok.
    + apply (IH _ l) in Hd; simpl; assumption.
Qed.

(** X8: the first [EachEdge] of a stable generator whose order is an
    [int] never panics and always leaves the table allocated, even when
    the step function terminates it early; the counter then holds the
    number of edges delivered in that call (as an [int]), and that is what
    every later [Size()] returns: the edge set is frozen at what the first
    call reached. *)
Theorem X8_first_traversal_freezes_the_count {A : Type}
  (g : stableBernoulliGraph RS) (f : EdgeLambda A) (r : RS) (a : A) :
  s_list g = None -> s_size g = 0 -> 0 <= s_order g <= max_int ->
  let w := stable_EachEdge (logged f) (mkRun g r (a, []) false) in
  panicked w = false /\ s_list (graph w) <> None /\
  s_size (graph w) = wrap_int (Z.of_nat (length (run_log w))) /\
  (forall r2, fst (fst (stable_Size (graph w) r2))
              = Some (wrap_int (Z.of_nat (length (run_log w))))).
Proof.
  intros Hl Hz Hn w.
  assert (H : panicked w = false /\
              (exists l', s_list (graph w) = Some l') /\
              exists k, length (run_log w) = k /\
                        s_size (graph w) = count_up 0 k).
  { subst w. unfold stable_EachEdge. simpl. rewrite Hl.
    rewrite make_fits by lia. rewrite creator_candidates.
    rewrite int_of_uint_small by exact Hn. unfold run_candidates.
    match goal with
    | |- context [deliver ?cs ?body ?w0] =>
        destruct (deliver cs body w0) as [ret w'] eqn:Hd
    end.
    apply (first_pass_counts f _ _ _ _ (replicate (Z.to_nat (s_order g)) None))
      in Hd; simpl; try assumption; try reflexivity.
    - destruct Hd as (Hp & Hl' & k & Hk & Hs). simpl in Hp, Hk, Hs.
      split; [exact Hp|]. split; [exact Hl'|].
      exists k. split; [exact Hk|]. rewrite Hs, Hz. reflexivity.
    - apply table_ok_fresh.
    - apply candidates_in_range. }
  destruct H as (Hp & [l' Hl'] & k & Hk & Hs).
  rewrite count_up_wrap in Hs. subst k.
  split; [exact Hp|]. split; [congruence|]. split; [exact Hs|].
  intros r2. rewrite (stable_Size_later RS _ l' r2 Hl'). simpl. f_equal. exact Hs.
Qed.

End StableAnyStepFacts.

(** ** Generators without edges *)

Section BarrenFacts.

Import GoInt Bernoulli Reference.

Lemma float_ltb_nan (x : float) : (x <? nan)%float = false.
Proof.
  rewrite ltb_spec. change (Prim2SF nan) with S754_nan.
  unfold SFltb. destruct (Prim2SF x); reflexivity.
Qed.

(** [int(float64(0) * ρ)] is 0 for 0 <= ρ < 1. *)
Lemma zero_times_rho (rho : float) :
  (0 <=? rho)%float = true -> (rho <? 1)%float = true ->
  GoFloat.to_int (GoFloat.of_int 0 * rho)%float = 0.
Proof.
  rewrite leb_spec, ltb_spec. unfold GoFloat.to_int.
  change (GoFloat.of_int 0) with 0%float. rewrite mul_spec.
  change (Prim2SF 0) with (S754_zero false).
  change (Prim2SF 1) with (S754_finite false 4503599627370496 (-52)).
  destruct (Prim2SF rho) as [s|s| |s m e]; simpl;
    try reflexivity; try discriminate; destruct s; simpl; discriminate.
Qed.

Variable RS : Type.

Lemma stable_pass_barren {A : Type} (f : EdgeLambda A) (rho : float)
  (t : bTrial RS) (cands : list (Z * Z)) :
  (forall r, fst (t rho r) = false) ->
  forall w : run RS A,
    let w' := snd (deliver cands
                     (trial_then_emit (stable_ff f) rho (stable_trial t)) w) in
    caller w' = caller w /\ graph w' = graph w /\ panicked w' = panicked w.
Proof.
  intros Ht. induction cands as [|c cands IH]; intros w.
  - simpl. auto.
  - simpl. unfold trial_then_emit at 1 3 5, stable_trial at 1 3 5.
    pose proof (Ht (source w)) as Hr.
    destruct (t rho (source w)) as [hit r1]. simpl in Hr. subst hit.
    apply (IH (mkRun (graph w) r1 (caller w) (panicked w))).
Qed.

(** A generator whose trials cannot succeed never calls the step
    function. *)
Lemma barren_unstable {A : Type} (g : unstableBernoulliGraph RS)
  (f : EdgeLambda A) (r : RS) (a : A) :
  (forall r, fst (u_trial g (u_rho g) r) = false) ->
  snd (unstable_EachEdge g f (r, a)) = a.
Proof.
  intros Ht. unfold unstable_EachEdge. rewrite creator_candidates.
  apply unstable_pass_barren. exact Ht.
Qed.

Lemma barren_stable {A : Type} (g : stableBernoulliGraph RS)
  (f : EdgeLambda A) (r : RS) (a : A) (p : bool) :
  (forall r, fst (s_trial g (s_rho g) r) = false) ->
  s_list g = None ->
  caller (stable_EachEdge f (mkRun g r a p)) = a /\
  s_size (graph (stable_EachEdge f (mkRun g r a p))) = s_size g.
Proof.
  intros Ht Hl. unfold stable_EachEdge. simpl. rewrite Hl.
  destruct (make (None : row) (s_order g)) as [l|]; [|auto].
  rewrite creator_candidates.
  destruct (stable_pass_barren f (s_rho g) (s_trial g)
              (candidates (s_directed g) (int_of_uint (s_order g))) Ht
              (mkRun (with_list g (Some l)) r a p)) as (H1 & H2 & _).
  unfold run_candidates. rewrite H1, H2. auto.
Qed.

Variable Float64 : RS -> float * RS.

(** X10: [BernoulliDistribution] does not reject a NaN probability (both
    comparisons of its guard are false for NaN); the generator it returns,
    stable or unstable and of any order, never delivers an edge, since no
    number is below NaN. *)
Theorem X10_nan_probability_is_accepted (n : Z) (directed stable : bool)
  (src : option RS) :
  exists g,
    BernoulliDistribution RS Float64 n nan directed stable src = Returned g /\
    match g with
    | Unstable ug =>
        forall (A : Type) (f : EdgeLambda A) (r : RS) (a : A),
          snd (unstable_EachEdge ug f (r, a)) = a
    | Stable sg =>
        forall (A : Type) (f : EdgeLambda A) (r : RS) (a : A) (p : bool),
          caller (stable_EachEdge f (mkRun sg r a p)) = a /\
          s_size (graph (stable_EachEdge f (mkRun sg r a p))) = 0
    end.
Proof.
  unfold BernoulliDistribution.
  change ((nan <? 0)%float) with false. change ((1 <=? nan)%float) with false.
  cbv beta iota delta [orb].
  assert (Ht : forall (s : option RS) (r : RS),
             fst (match s with
                  | None => fun rho r =>
                      let '(x, r') := Float64 r in ((x <? rho)%float, r')
                  | Some _ => fun rho r =>
                      let '(x, r') := Float64 r in ((x <? rho)%float, r')
                  end nan r) = false).
  { intros s r. destruct s; destruct (Float64 r) as [x r']; simpl;
      apply float_ltb_nan. }
  destruct stable; eexists; (split; [reflexivity|]).
  - intros A f r a p. apply barren_stable; [|reflexivity]. simpl. apply Ht.
  - intros A f r a. apply barren_unstable. simpl. apply Ht.
Qed.

(** X11: with ρ = 0 and a source whose numbers are never negative (as
    those of [math/rand] are), the generator that [BernoulliDistribution]
    returns never delivers an edge. *)
Theorem X11_zero_probability_gives_no_edge (n : Z) (directed stable : bool)
  (src : option RS) :
  (forall r, (0 <=? fst (Float64 r))%float = true) ->
  exists g,
    BernoulliDistribution RS Float64 n 0%float directed stable src = Returned g /\
    match g with
    | Unstable ug =>
        forall (A : Type) (f : EdgeLambda A) (r : RS) (a : A),
          snd (unstable_EachEdge ug f (r, a)) = a
    | Stable sg =>
        forall (A : Type) (f : EdgeLambda A) (r : RS) (a : A) (p : bool),
          caller (stable_EachEdge f (mkRun sg r a p)) = a /\
          s_size (graph (stable_EachEdge f (mkRun sg r a p))) = 0
    end.
Proof.
  intros Hsrc. unfold BernoulliDistribution.
  change ((0 <? 0)%float) with false. change ((1 <=? 0)%float) with false.
  cbv beta iota delta [orb].
  assert (Ht : forall (s : option RS) (r : RS),
             fst (match s with
                  | None => fun rho r =>
                      let '(x, r') := Float64 r in ((x <? rho)%float, r')
                  | Some _ => fun rho r =>
                      let '(x, r') := Float64 r in ((x <? rho)%float, r')
                  end 0%float r) = false).
  { intros s r. specialize (Hsrc r).
    destruct s; destruct (Float64 r) as [x r']; simpl in *;
      apply float_leb_not_gtb; exact Hsrc. }
  destruct stable; eexists; (split; [reflexivity|]).
  - intros A f r a p. apply barren_stable; [|reflexivity]. simpl. apply Ht.
  - intros A f r a. apply barren_unstable. simpl. apply Ht.
Qed.

Lemma candidates_small (directed : bool) (n : Z) :
  0 <= n <= 1 -> candidates directed (int_of_uint n) = [].
Proof.
  intros Hn. assert (n = 0 \/ n = 1) as [-> | ->] by lia;
    destruct directed; reflexivity.
Qed.

(** X9: a generator of order 0 or 1 has no candidate pair: [EachEdge] of
    the unstable generator returns without a trial and without a call of
    the step function; the first [EachEdge] of the stable generator
    likewise, and [Size()] is the untouched counter; and the unstable
    [Size()] is 0 for 0 <= ρ < 1. *)
Theorem X9_orders_zero_and_one_have_no_edge {A : Type} (f : EdgeLambda A)
  (ug : unstableBernoulliGraph RS) (sg : stableBernoulliGraph RS)
  (r : RS) (a : A) (p : bool) :
  0 <= u_order ug <= 1 -> 0 <= s_order sg <= 1 -> s_list sg = None ->
  unstable_EachEdge ug f (r, a) = (r, a) /\
  (let w := stable_EachEdge f (mkRun sg r a p) in
   caller w = a /\ source w = r /\ panicked w = p /\
   s_size (graph w) = s_size sg /\ s_list (graph w) <> None) /\
  stable_Size sg r
  = (Some (s_size sg),
     with_list sg (Some (replicate (Z.to_nat (s_order sg)) None)), r) /\
  ((0 <=? u_rho ug)%float = true -> (u_rho ug <? 1)%float = true ->
   unstable_Size ug = 0).
Proof.
  intros Hu Hs Hl.
  assert (Hmake : make (None : row) (s_order sg)
                  = Some (replicate (Z.to_nat (s_order sg)) None))
    by (apply make_fits; unfold max_int; lia).
  split; [|split; [|split]].
  - unfold unstable_EachEdge. rewrite creator_candidates.
    rewrite candidates_small by exact Hu. reflexivity.
  - unfold stable_EachEdge. simpl. rewrite Hl, Hmake.
    rewrite creator_candidates, candidates_small by exact Hs. simpl.
    repeat split. discriminate.
  - unfold stable_Size, stable_EachEdge. simpl. rewrite Hl, Hmake.
    rewrite creator_candidates, candidates_small by exact Hs. reflexivity.
  - intros H0 H1. unfold unstable_Size.
    assert (Hcs : int_mul (int_of_uint (u_order ug))
                          (int_sub (int_of_uint (u_order ug)) 1) = 0).
    { assert (u_order ug = 0 \/ u_order ug = 1) as [-> | ->] by lia;
        reflexivity. }
    rewrite Hcs. change (int_div 0 2) with 0.
    destruct (u_directed ug); simpl; apply zero_times_rho; assumption.
Qed.

End BarrenFacts.

(** *** The properties at concrete generators *)

(** X7 on a table of two vertices with row 0 allocated, and a step
    function that terminates at the second edge. *)
Lemma X7_two_vertices :
  let g := Bernoulli.mkStable (RS := Reference.scripted) 2 0.5%float
             (fun rho r => let '(x, r') := Reference.scripted_Float64 r in
                           ((x <? rho)%float, r'))
             1 false (Some [Some [tt; tt]; None]) in
  let f : Bernoulli.EdgeLambda unit := fun e a => (Bernoulli.V e =? 1, a) in
  let w := Bernoulli.stable_EachEdge (logged f)
             (Bernoulli.mkRun g [0.25%float] (tt, []) false) in
  Bernoulli.graph w = g /\ Bernoulli.source w = [0.25%float] /\
  Bernoulli.panicked w = false /\
  delivered (Reference.run_log w)
  = [Bernoulli.mkEdge 0 0; Bernoulli.mkEdge 0 1].
Proof.
  intros g f w.
  destruct (X7_replay_draws_nothing Reference.scripted g
              [Some [tt; tt]; None] f [0.25%float] tt false eq_refl)
    as (H1 & H2 & H3 & _).
  split; [exact H1|]. split; [exact H2|]. split; [exact H3|].
  vm_compute. reflexivity.
Defined.

(** X8 at three vertices with every trial a success and a step function
    that terminates at the first edge: one edge is delivered, and 1 is the
    size for good. *)
Lemma X8_three_vertices :
  let g := Bernoulli.mkStable (RS := Reference.scripted) 3 0.5%float
             (fun rho r => let '(x, r') := Reference.scripted_Float64 r in
                           ((x <? rho)%float, r'))
             0 false None in
  let f : Bernoulli.EdgeLambda unit := fun _ a => (true, a) in
  let w := Bernoulli.stable_EachEdge (logged f)
             (Bernoulli.mkRun g [0.25; 0.25; 0.25]%float (tt, []) false) in
  (0 <= 3 <= GoInt.max_int) /\
  delivered (Reference.run_log w) = [Bernoulli.mkEdge 0 1] /\
  Bernoulli.s_size (Bernoulli.graph w) = 1 /\
  (forall r2, fst (fst (Bernoulli.stable_Size (Bernoulli.graph w) r2)) = Some 1).
Proof.
  intros g f w.
  assert (Hr : 0 <= 3 <= GoInt.max_int) by (unfold GoInt.max_int; lia).
  destruct (X8_first_traversal_freezes_the_count Reference.scripted g f
              [0.25; 0.25; 0.25]%float tt eq_refl eq_refl Hr)
    as (_ & _ & Hs & Hlater).
  assert (Hlog : Reference.run_log w = [(Bernoulli.mkEdge 0 1, true)])
    by (vm_compute; reflexivity).
  fold w in Hs, Hlater. rewrite Hlog in Hs, Hlater.
  change (GoInt.wrap_int (Z.of_nat (length [(Bernoulli.mkEdge 0 1, true)])))
    with 1 in Hs, Hlater.
  split; [exact Hr|]. split; [rewrite Hlog; reflexivity|].
  split; [exact Hs | exact Hlater].
Defined.

(** X9 at order 1 (unstable, ρ = 0.5) and order 0 (stable). *)
Lemma X9_one_and_zero :
  let ug := Bernoulli.mkUnstable (RS := Reference.scripted) 1 0.5%float
              (fun rho r => let '(x, r') := Reference.scripted_Float64 r in
                            ((x <? rho)%float, r'))
              true in
  let sg := Bernoulli.mkStable (RS := Reference.scripted) 0 0.5%float
              (fun rho r => let '(x, r') := Reference.scripted_Float64 r in
                            ((x <? rho)%float, r'))
              0 false None in
  (0 <= 1 <= 1 /\ 0 <= 0 <= 1) /\
  Bernoulli.unstable_EachEdge ug Reference.collect ([0.25%float], [])
  = ([0.25%float], []) /\
  fst (fst (Bernoulli.stable_Size sg [0.25%float])) = Some 0 /\
  Bernoulli.unstable_Size ug = 0.
Proof.
  intros ug sg.
  assert (H1 : 0 <= 1 <= 1) by lia. assert (H0 : 0 <= 0 <= 1) by lia.
  destruct (X9_orders_zero_and_one_have_no_edge Reference.scripted
              Reference.collect ug sg [0.25%float] [] false H1 H0 eq_refl)
    as (E1 & _ & E3 & E4).
  split; [split; assumption|]. split; [exact E1|].
  split; [rewrite E3; reflexivity|].
  apply E4; reflexivity.
Defined.

(** X11 with a source that always returns 0.25. *)
Lemma X11_constant_source :
  (forall r : unit, (0 <=? fst (0.25%float, r))%float = true) /\
  exists g,
    Bernoulli.BernoulliDistribution unit (fun r => (0.25%float, r)) 5 0%float
      false false None = Bernoulli.Returned g /\
    match g with
    | Bernoulli.Unstable ug =>
        snd (Bernoulli.unstable_EachEdge ug Reference.collect (tt, [])) = []
    | Bernoulli.Stable _ => False
    end.
Proof.
  assert (Hsrc : forall r : unit, (0 <=? fst (0.25%float, r))%float = true)
    by (intros r; reflexivity).
  split; [exact Hsrc|].
  destruct (X11_zero_probability_gives_no_edge unit (fun r => (0.25%float, r))
              5 false false None Hsrc) as (g & Hg & Hbarren).
  exists g. split; [exact Hg|].
  unfold Bernoulli.BernoulliDistribution in Hg. simpl in Hg.
  injection Hg as <-. apply Hbarren.
Defined.

(** X12 at three vertices with draws 0.25, 0.75, 0.75. *)
Lemma stable_replay_rows_at_three :
  let g := Bernoulli.mkStable (RS := Reference.scripted) 3 0.5%float
             (fun rho r => let '(x, r') := Reference.scripted_Float64 r in
                           ((x <? rho)%float, r'))
             0 false None in
  let w1 := Bernoulli.stable_EachEdge Reference.collect
              (Bernoulli.mkRun g [0.25; 0.75; 0.75]%float [] false) in
  let w2 := Bernoulli.stable_EachEdge Reference.collect
              (Bernoulli.mkRun (Bernoulli.graph w1) [] [] false) in
  (0 <= 3 <= GoInt.max_int) /\
  Bernoulli.mkEdge 0 1 ∈ Bernoulli.caller w1 /\
  Bernoulli.mkEdge 0 0 ∈ Bernoulli.caller w2 /\
  Bernoulli.mkEdge 0 0 ∉ Bernoulli.caller w1.
Proof.
  intros g w1 w2.
  assert (Hr : 0 <= 3 <= GoInt.max_int) by (unfold GoInt.max_int; lia).
  destruct (stable_replay_walks_whole_rows Reference.scripted g
              [0.25; 0.75; 0.75]%float [] eq_refl Hr) as [_ Hloop].
  assert (H1 : Bernoulli.mkEdge 0 1 ∈ Bernoulli.caller w1)
    by (vm_compute; left).
  split; [exact Hr|]. split; [exact H1|]. exact (Hloop _ H1).
Defined.

(** ** The benchmark's graph source *)

Section SelectMore.

Import Bernoulli Reference.

Context {RS X : Type}.

Lemma select_app (t : bTrial RS) (rho : float) (xs ys : list X) (r : RS) :
  fst (select t rho (xs ++ ys) r)
  = fst (select t rho xs r) ++ fst (select t rho ys (snd (select t rho xs r))) /\
  snd (select t rho (xs ++ ys) r)
  = snd (select t rho ys (snd (select t rho xs r))).
Proof.
  revert r. induction xs as [|x xs IH]; intros r; simpl.
  - auto.
  - destruct (t rho r) as [hit r1]. specialize (IH r1).
    destruct (select t rho (xs ++ ys) r1) as [s12 r12].
    destruct (select t rho xs r1) as [s1 r2]. simpl in *.
    destruct IH as [-> ->]. destruct hit; auto.
Qed.

Lemma select_all (t : bTrial RS) (rho : float) (xs : list X) (r : RS) :
  (forall r, fst (t rho r) = true) -> fst (select t rho xs r) = xs.
Proof.
  intros Ht. revert r. induction xs as [|x xs IH]; intros r; simpl.
  - reflexivity.
  - pose proof (Ht r) as Hr. destruct (t rho r) as [hit r1]. simpl in Hr.
    subst hit. specialize (IH r1). destruct (select t rho xs r1). simpl in *.
    congruence.
Qed.

End SelectMore.

Section CountUpMore.

Import GoInt Reference.

Lemma count_up_add (z : Z) (j k : nat) :
  count_up (count_up z j) k = count_up z (j + k).
Proof.
  unfold count_up. rewrite Nat.add_comm. symmetry. apply Nat.iter_add.
Qed.

End CountUpMore.

Section BenchFillFacts.

Import GoInt Bernoulli Reference Bench.

Variable Payload : Type.
Variable RS : Type.
Variable Intn : Z -> RS -> Z * RS.

Abbreviation bedge := (benchEdge Payload).

Lemma length_set_all (u : Z) (hs : list (Z * Z)) :
  forall rw : list bedge, length (set_all u rw hs) = length rw.
Proof.
  induction hs as [|c hs IH]; intros rw; [reflexivity|].
  change (set_all u rw (c :: hs))
    with (set_all u (<[Z.to_nat (snd c) := edge u (snd c)]> rw) hs).
  rewrite IH. apply length_insert.
Qed.

Lemma lookup_set_all (u : Z) (hs : list (Z * Z)) :
  forall (rw : list bedge) (v : Z),
    Forall (fun c => 0 <= snd c < Z.of_nat (length rw)) hs ->
    0 <= v < Z.of_nat (length rw) ->
    set_all u rw hs !! Z.to_nat v
    = if decide (v ∈ map snd hs) then Some (edge u v) else rw !! Z.to_nat v.
Proof.
  induction hs as [|c hs IH]; intros rw v Hin Hv.
  - change (set_all u rw []) with rw.
    destruct (decide (v ∈ map snd ([] : list (Z * Z)))) as [H|H];
      [|reflexivity].
    apply elem_of_nil in H. contradiction.
  - apply Forall_cons in Hin. destruct Hin as [Hc Hin].
    change (set_all u rw (c :: hs))
      with (set_all u (<[Z.to_nat (snd c) := edge u (snd c)]> rw) hs).
    rewrite IH by (rewrite length_insert; assumption).
    change (map snd (c :: hs)) with (snd c :: map snd hs).
    destruct (decide (v ∈ map snd hs)) as [Hs|Hs].
    + case_decide as H; [reflexivity|]. exfalso. apply H. right. exact Hs.
    + destruct (decide (v = snd c)) as [->|Hne].
      * rewrite list_lookup_insert_eq by lia.
        case_decide as H; [reflexivity|]. exfalso. apply H. left.
      * rewrite list_lookup_insert_ne by lia.
        case_decide as H; [|reflexivity].
        exfalso. apply elem_of_cons in H. destruct H as [H|H]; auto.
Qed.

Lemma set_cell_ok (l : list (list bedge)) (rw : list bedge) (u v : Z)
  (e : bedge) :
  0 <= u -> l !! Z.to_nat u = Some rw -> 0 <= v < Z.of_nat (length rw) ->
  set_cell l u v e = Some (<[Z.to_nat u := <[Z.to_nat v := e]> rw]> l).
Proof.
  intros Hu Hl Hv. unfold set_cell, index, store.
  destruct (Z.leb_spec 0 u); [|lia]. rewrite Hl. simpl.
  destruct (Z.leb_spec 0 v); [|lia].
  destruct (Z.ltb_spec v (Z.of_nat (length rw))); [|lia]. simpl.
  apply lookup_lt_Some in Hl.
  destruct (Z.ltb_spec u (Z.of_nat (length l))); [|lia]. reflexivity.
Qed.

(** The inner loop over columns of the row's own range: no panic; the
    cells whose draw succeeds are set. *)
Lemma fill_cells (p u : Z) (vs : list Z) :
  0 <= u ->
  forall (st : filling Payload RS) (rw : list bedge),
    f_list st !! Z.to_nat u = Some rw ->
    Forall (fun v => 0 <= v < Z.of_nat (length rw)) vs ->
    deliver vs (fill_cell Intn p u) st
    = (false,
       mkFilling
         (<[Z.to_nat u :=
              set_all u rw (fst (select (draw Intn p) 0%float (row_cands u vs)
                                        (f_rand st)))]> (f_list st))
         (count_up (f_size st)
            (length (fst (select (draw Intn p) 0%float (row_cands u vs)
                                 (f_rand st)))))
         (snd (select (draw Intn p) 0%float (row_cands u vs) (f_rand st)))
         (f_panicked st)).
Proof.
  intros Hu. induction vs as [|v vs IH]; intros st rw Hl Hvs.
  - simpl. change (set_all u rw []) with rw.
    rewrite list_insert_id by exact Hl. destruct st; reflexivity.
  - apply Forall_cons in Hvs. destruct Hvs as [Hv Hvs].
    simpl deliver. unfold fill_cell at 1. unfold row_cands.
    rewrite filter_cons.
    destruct (decide (u ≠ v)) as [Hne|Heq].
    + assert (Hb : (v =? u) = false) by (apply Z.eqb_neq; lia).
      rewrite Hb. cbn [negb map select]. unfold draw at 1 3 5.
      destruct (Intn 100 (f_rand st)) as [x r1].
      destruct (x <=? p).
      * rewrite (set_cell_ok _ rw u v _ Hu Hl Hv).
        rewrite (IH (mkFilling (<[Z.to_nat u := <[Z.to_nat v := edge u v]> rw]>
                                  (f_list st))
                               (int_add (f_size st) 1) r1 (f_panicked st))
                    (<[Z.to_nat v := edge u v]> rw)).
        -- cbn [f_list f_size f_rand f_panicked]. fold (row_cands u vs).
           destruct (select (draw Intn p) 0%float (row_cands u vs) r1)
             as [sel r2]. cbn [fst snd length].
           rewrite list_insert_insert_eq, count_up_succ_r. reflexivity.
        -- cbn [f_list]. apply list_lookup_insert_eq.
           apply lookup_lt_Some in Hl. exact Hl.
        -- rewrite length_insert. exact Hvs.
      * rewrite (IH (mkFilling (f_list st) (f_size st) r1 (f_panicked st)) rw Hl Hvs).
        cbn [f_list f_size f_rand f_panicked]. fold (row_cands u vs).
        destruct (select (draw Intn p) 0%float (row_cands u vs) r1)
          as [sel r2]. reflexivity.
    + assert (v = u) as -> by lia. rewrite Z.eqb_refl. cbn [negb].
      apply (IH st rw Hl Hvs).
Qed.

Lemma elem_of_row_cands (u : Z) (vs : list Z) (c : Z * Z) :
  c ∈ row_cands u vs <-> fst c = u /\ snd c ∈ vs /\ u <> snd c.
Proof.
  unfold row_cands. rewrite list_elem_of_In, in_map_iff. split.
  - intros (v & <- & Hv). apply list_elem_of_In, list_elem_of_filter in Hv.
    simpl. tauto.
  - intros (Hf & Hv & Hne). exists (snd c). split.
    + destruct c; simpl in *; congruence.
    + apply list_elem_of_In, list_elem_of_filter. auto.
Qed.

Lemma row_of_ext (n u : Z) (hs hs' : list (Z * Z)) :
  (forall v, (u, v) ∈ hs <-> (u, v) ∈ hs') ->
  @row_of Payload n u hs = row_of n u hs'.
Proof.
  intros E. unfold row_of. apply map_ext. intros v.
  destruct (decide ((u, v) ∈ hs)) as [H|H];
    destruct (decide ((u, v) ∈ hs')) as [H'|H']; try reflexivity;
    exfalso; apply E in H || apply E in H'; contradiction.
Qed.

Lemma length_row_of (n u : Z) (hs : list (Z * Z)) :
  length (@row_of Payload n u hs) = Z.to_nat n.
Proof. unfold row_of. rewrite length_map. apply length_seqZ. Qed.

Lemma lookup_row_of (n u v : Z) (hs : list (Z * Z)) :
  0 <= v < n ->
  @row_of Payload n u hs !! Z.to_nat v
  = Some (if decide ((u, v) ∈ hs) then edge u v else zero_edge).
Proof.
  intros Hv. unfold row_of.
  change (map ?f ?l) with (f <$> l). rewrite list_lookup_fmap.
  rewrite lookup_seqZ_lt by lia. simpl. rewrite Z2Nat.id by lia. reflexivity.
Qed.

(** A fresh row in which the successes of row [u] are set is the row the
    table is expected to have. *)
Lemma set_all_row_of (n u : Z) (sel : list (Z * Z)) :
  0 <= n ->
  (forall c, c ∈ sel -> fst c = u /\ 0 <= snd c < n) ->
  set_all u (replicate (Z.to_nat n) (@zero_edge Payload)) sel = row_of n u sel.
Proof.
  intros Hn Hsel. apply list_eq. intros i.
  destruct (decide (i < Z.to_nat n)%nat) as [Hi|Hi].
  - rewrite <- (Nat2Z.id i).
    rewrite lookup_set_all, lookup_row_of by
      (rewrite ?length_replicate; try lia;
       apply Forall_forall; intros c Hc; apply Hsel in Hc; lia).
    rewrite lookup_replicate_2 by lia.
    destruct (decide (Z.of_nat i ∈ map snd sel)) as [H|H];
      destruct (decide ((u, Z.of_nat i) ∈ sel)) as [H'|H']; try reflexivity;
      exfalso.
    + apply list_elem_of_In, in_map_iff in H. destruct H as (c & Hc & Hin).
      apply list_elem_of_In in Hin. destruct (Hsel c Hin) as [Hf _].
      apply H'. destruct c; simpl in *. subst. exact Hin.
    + apply H. apply list_elem_of_In, in_map_iff. exists (u, Z.of_nat i).
      split; [reflexivity | apply list_elem_of_In; exact H'].
  - rewrite !lookup_ge_None_2;
      rewrite ?length_set_all, ?length_replicate, ?length_row_of; try lia.
    reflexivity.
Qed.

(** One round of the outer loop: a fresh row is stored at [u] and filled. *)
Lemma fill_row_ok (n p u : Z) (st : filling Payload RS) :
  0 <= n <= max_int -> 0 <= u < n -> length (f_list st) = Z.to_nat n ->
  fill_row Intn n p u st
  = (false,
     mkFilling
       (<[Z.to_nat u :=
            row_of n u (fst (select (draw Intn p) 0%float
                                    (row_cands u (seqZ 0 n)) (f_rand st)))]>
          (f_list st))
       (count_up (f_size st)
          (length (fst (select (draw Intn p) 0%float
                               (row_cands u (seqZ 0 n)) (f_rand st)))))
       (snd (select (draw Intn p) 0%float (row_cands u (seqZ 0 n)) (f_rand st)))
       (f_panicked st)).
Proof.
  intros Hn Hu Hlen. unfold fill_row.
  rewrite make_fits by lia. unfold store.
  destruct (Z.leb_spec 0 u); [|lia].
  destruct (Z.ltb_spec u (Z.of_nat (length (f_list st)))); [|lia].
  cbn [andb]. rewrite int_of_uint_small by lia.
  rewrite for_range_deliver, Z.sub_0_r.
  rewrite (fill_cells p u (seqZ 0 n) ltac:(lia) _
             (replicate (Z.to_nat n) zero_edge)).
  - cbn [f_list f_size f_rand f_panicked].
    rewrite list_insert_insert_eq. rewrite set_all_row_of; [reflexivity|lia|].
    intros c Hc. apply select_elem_of, elem_of_row_cands in Hc.
    destruct Hc as (Hf & Hv & _). apply elem_of_seqZ in Hv. lia.
  - cbn [f_list]. apply list_lookup_insert_eq. lia.
  - rewrite length_replicate. apply Forall_forall. intros v Hv.
    apply elem_of_seqZ in Hv. lia.
Qed.

(** The outer loop over rows [us]: no panic; every row of [us] is the
    expected row of the successes, the other rows are left alone. *)
Lemma fill_rows (n p : Z) :
  0 <= n <= max_int ->
  forall us, NoDup us -> Forall (fun u => 0 <= u < n) us ->
  forall st : filling Payload RS,
    length (f_list st) = Z.to_nat n ->
    exists l',
      deliver us (fill_row Intn n p) st
      = (false,
         mkFilling l'
           (count_up (f_size st)
              (length (fst (select (draw Intn p) 0%float
                              (flat_map (fun u => row_cands u (seqZ 0 n)) us)
                              (f_rand st)))))
           (snd (select (draw Intn p) 0%float
                   (flat_map (fun u => row_cands u (seqZ 0 n)) us) (f_rand st)))
           (f_panicked st)) /\
      length l' = Z.to_nat n /\
      (forall u, u ∈ us ->
         l' !! Z.to_nat u
         = Some (row_of n u
                   (fst (select (draw Intn p) 0%float
                           (flat_map (fun u => row_cands u (seqZ 0 n)) us)
                           (f_rand st))))) /\
      (forall u, 0 <= u -> u ∉ us -> l' !! Z.to_nat u = f_list st !! Z.to_nat u).
Proof.
  intros Hn us. induction us as [|u us IH]; intros Hnd Hin st Hlen.
  - exists (f_list st). simpl. split; [destruct st; reflexivity|].
    split; [exact Hlen|]. split; [|reflexivity].
    intros u Hu. apply elem_of_nil in Hu. contradiction.
  - apply NoDup_cons in Hnd. destruct Hnd as [Hu Hnd].
    apply Forall_cons in Hin. destruct Hin as [Hur Hin].
    simpl deliver. rewrite (fill_row_ok n p u st Hn Hur Hlen).
    cbn [flat_map].
    destruct (select_app (draw Intn p) 0%float (row_cands u (seqZ 0 n))
                (flat_map (fun u => row_cands u (seqZ 0 n)) us) (f_rand st))
      as [-> ->].
    set (sel_u := fst (select (draw Intn p) 0%float
                         (row_cands u (seqZ 0 n)) (f_rand st))).
    set (r1 := snd (select (draw Intn p) 0%float
                      (row_cands u (seqZ 0 n)) (f_rand st))).
    destruct (IH Hnd Hin
                (mkFilling (<[Z.to_nat u := row_of n u sel_u]> (f_list st))
                   (count_up (f_size st) (length sel_u)) r1 (f_panicked st)))
      as (l' & Hd & Hl' & Hrows & Hrest).
    { cbn [f_list]. rewrite length_insert. exact Hlen. }
    cbn [f_list f_size f_rand f_panicked] in Hd, Hrows, Hrest.
    set (sel_r := fst (select (draw Intn p) 0%float
                         (flat_map (fun u => row_cands u (seqZ 0 n)) us) r1))
      in *.
    assert (Hselu : forall c, c ∈ sel_u -> fst c = u).
    { intros c Hc. apply select_elem_of, elem_of_row_cands in Hc. tauto. }
    assert (Hselr : forall c, c ∈ sel_r -> fst c ∈ us).
    { intros c Hc. apply select_elem_of in Hc.
      apply list_elem_of_In, in_flat_map in Hc. destruct Hc as (u' & Hu' & Hc).
      apply list_elem_of_In, elem_of_row_cands in Hc.
      destruct Hc as [-> _]. apply list_elem_of_In. exact Hu'. }
    exists l'. split; [|split; [exact Hl'|split]].
    + rewrite Hd, count_up_add, length_app. reflexivity.
    + intros u' Hu'. apply elem_of_cons in Hu'. destruct Hu' as [->|Hu'].
      * rewrite Hrest by (lia || exact Hu). rewrite list_lookup_insert_eq by lia.
        f_equal. apply row_of_ext. intros v. rewrite elem_of_app. split; auto.
        intros [H|H]; [exact H|]. apply Hselr in H. contradiction.
      * rewrite (Hrows u' Hu'). f_equal. apply row_of_ext. intros v.
        rewrite elem_of_app. split; auto.
        intros [H|H]; [|exact H]. apply Hselu in H. simpl in H. subst u'.
        contradiction.
    + intros u' Hu0 Hu'. apply not_elem_of_cons in Hu'. destruct Hu' as [Hne Hu'].
      rewrite (Hrest u' Hu0 Hu'). apply list_lookup_insert_ne. lia.
Qed.

End BenchFillFacts.

Section BenchLoopFacts.

Import Reference.

Context {St : Type}.

Lemma deliver_concat {X : Type} (ls : list (list X)) (body : X -> St -> bool * St) s :
  deliver (concat ls) body s = deliver ls (fun l s => deliver l body s) s.
Proof.
  revert s. induction ls as [|l ls IH]; intros s; simpl.
  - reflexivity.
  - rewrite deliver_app.
    destruct (deliver l body s) as [[] s']; [reflexivity | apply IH].
Qed.

(** A [range] loop that ignores the index, and one that ignores the
    element. *)
Lemma range_loop_elements {T : Type} (l : list T) (body : T -> St -> bool * St) s :
  range_loop l (fun _ x s => body x s) s = deliver l body s.
Proof.
  unfold range_loop. generalize 0. revert s.
  induction l as [|x l IH]; intros s i; simpl.
  - reflexivity.
  - destruct (body x s) as [[] s']; [reflexivity | apply IH].
Qed.

Lemma range_loop_indices {T : Type} (l : list T) (body : Z -> St -> bool * St) s :
  range_loop l (fun i _ s => body i s) s
  = deliver (seqZ 0 (Z.of_nat (length l))) body s.
Proof.
  unfold range_loop. generalize 0. revert s.
  induction l as [|x l IH]; intros s i.
  - reflexivity.
  - simpl length. rewrite seqZ_cons by lia. simpl.
    destruct (body i s) as [[] s']; [reflexivity|].
    rewrite IH. f_equal. f_equal; lia.
Qed.

End BenchLoopFacts.

Section BenchFacts.

Import GoInt Bernoulli Reference Bench.

Variable Payload : Type.
Variable RS : Type.
Variable Intn : Z -> RS -> Z * RS.

Abbreviation generator := (bernoulliDistributionGenerator Payload RS Intn).

Lemma lookup_table_of (n u : Z) (hs : list (Z * Z)) :
  0 <= u < n ->
  @table_of Payload n hs !! Z.to_nat u = Some (row_of n u hs).
Proof.
  intros Hu. unfold table_of.
  change (map ?f ?l) with (f <$> l). rewrite list_lookup_fmap.
  rewrite lookup_seqZ_lt by lia. simpl. rewrite Z2Nat.id by lia. reflexivity.
Qed.

Lemma length_table_of (n : Z) (hs : list (Z * Z)) :
  length (@table_of Payload n hs) = Z.to_nat n.
Proof. unfold table_of. rewrite length_map. apply length_seqZ. Qed.

(** The two loops of the generator, from a table of [n] nil rows. *)
Lemma generator_loops (n p : Z) (r : RS) :
  0 <= n <= max_int ->
  snd (for_range 0 (int_of_uint n) (fill_row Intn n p)
         (mkFilling (replicate (Z.to_nat n) ([] : list (benchEdge Payload)))
            0 r false))
  = mkFilling (table_of n (hits Intn n p r))
      (wrap_int (Z.of_nat (length (hits Intn n p r))))
      (rand_after Intn n p r) false.
Proof.
  intros Hn. rewrite int_of_uint_small by lia.
  rewrite for_range_deliver, Z.sub_0_r.
  destruct (fill_rows Payload RS Intn n p Hn (seqZ 0 n) (NoDup_seqZ _ _)
              ltac:(apply Forall_forall; intros u Hu;
                    apply elem_of_seqZ in Hu; lia)
              (mkFilling (replicate (Z.to_nat n) []) 0 r false)
              ltac:(apply length_replicate))
    as (l' & Hd & Hl' & Hrows & _).
  rewrite Hd. cbn [snd f_size f_rand f_panicked] in *.
  change (flat_map (fun u => row_cands u (seqZ 0 n)) (seqZ 0 n))
    with (pairs_ne n) in *.
  fold (hits Intn n p r) in *. fold (rand_after Intn n p r).
  rewrite count_up_wrap. f_equal.
  apply list_eq. intros i.
  destruct (decide (i < Z.to_nat n)%nat) as [Hi|Hi].
  - rewrite <- (Nat2Z.id i).
    rewrite Hrows by (apply elem_of_seqZ; lia).
    rewrite lookup_table_of by lia. reflexivity.
  - rewrite !lookup_ge_None_2; rewrite ?length_table_of; try lia. reflexivity.
Qed.

Lemma hits_in_range (n p : Z) (r : RS) (u v : Z) :
  (u, v) ∈ hits Intn n p r -> 0 <= u < n /\ 0 <= v < n /\ u <> v.
Proof.
  intros H. apply select_elem_of, elem_of_pairs_ne in H. lia.
Qed.

Lemma length_hits (n p : Z) (r : RS) :
  0 <= n -> 0 <= Z.of_nat (length (hits Intn n p r)) <= n * (n - 1).
Proof.
  intros Hn. pose proof (select_length (draw Intn p) 0%float (pairs_ne n) r) as H.
  fold (hits Intn n p r) in H. pose proof (length_pairs_ne n Hn). lia.
Qed.

(** X13.  [bernoulliDistributionGenerator] panics exactly when the edge
    probability is outside 1..100 (for a vertex count that is a valid
    [int]; memory limits are not modelled).  Whether a source is handed in
    makes no difference to that. *)
Theorem X13_generator_panics_iff_probability_out_of_range
  (n p : Z) (src : option RS) (clock : RS) :
  0 <= n <= max_int ->
  generator n p src clock = Panicked <-> p < 1 \/ 100 < p.
Proof.
  intros Hn. unfold bernoulliDistributionGenerator.
  destruct (Z.ltb_spec 100 p) as [Hp|Hp]; cbn [orb].
  - split; [intros _; right; exact Hp | reflexivity].
  - destruct (Z.ltb_spec p 1) as [Hq|Hq].
    + split; [intros _; left; exact Hq | reflexivity].
    + rewrite make_fits by lia. cbv zeta.
      rewrite (generator_loops n p _ Hn). cbn [f_panicked].
      split; [discriminate | lia].
Qed.

Lemma generator_returns (n p : Z) (src : option RS) (clock : RS) :
  0 <= n <= max_int -> 1 <= p <= 100 ->
  generator n p src clock
  = Returned
      ({| targetOrder := n; targetDensity := 0%float; maxDegree := 0;
          minDegree := 0; directed := true;
          list_ := table_of n (hits Intn n p (default clock src));
          size := wrap_int (Z.of_nat (length (hits Intn n p (default clock src)))) |},
       rand_after Intn n p (default clock src)).
Proof.
  intros Hn Hp. unfold bernoulliDistributionGenerator.
  destruct (Z.ltb_spec 100 p); [lia|]. destruct (Z.ltb_spec p 1); [lia|].
  cbn [orb]. rewrite make_fits by lia. cbv zeta.
  change (match src with Some s => s | None => clock end)
    with (default clock src).
  rewrite (generator_loops n p _ Hn). reflexivity.
Qed.

Lemma Edges_deliver {St : Type} (g : benchGraph Payload)
  (f : Step (benchEdge Payload) St) (s : St) :
  Edges g f s = snd (deliver (concat (list_ g)) f s).
Proof.
  unfold Edges. rewrite range_loop_elements, deliver_concat.
  f_equal. apply deliver_ext. intros adj s'. apply range_loop_elements.
Qed.

(** X14.  With an edge probability [p] in 1..100 the generator returns a
    directed graph of target order [n] whose table has [n] rows of [n]
    cells: cell [(u, v)] holds the edge from [u] to [v] when [u <> v] and
    the draw made for it was at most [p], and the zero edge otherwise.  The
    draws are made for the ordered pairs of different vertices in row-major
    order, one each, from the source handed in, or the clock-seeded one when
    none is.  The size is the number of cells set. *)
Theorem X14_generator_sets_the_cells_drawn
  (n p : Z) (src : option RS) (clock : RS) :
  0 <= n <= max_int -> 1 <= p <= 100 ->
  generator n p src clock
  = Returned
      ({| targetOrder := n; targetDensity := 0%float; maxDegree := 0;
          minDegree := 0; directed := true;
          list_ := table_of n (hits Intn n p (default clock src));
          size := wrap_int (Z.of_nat (length (hits Intn n p (default clock src)))) |},
       rand_after Intn n p (default clock src)).
Proof. apply generator_returns. Qed.

Lemma deliver_keep (l acc : list (benchEdge Payload)) :
  deliver l keep acc = (false, acc ++ l).
Proof.
  revert acc. induction l as [|e l IH]; intros acc; simpl.
  - rewrite app_nil_r. reflexivity.
  - rewrite IH, <- app_assoc. reflexivity.
Qed.

Lemma length_concat_table_of (n : Z) (hs : list (Z * Z)) :
  0 <= n -> Z.of_nat (length (concat (@table_of Payload n hs))) = n * n.
Proof.
  intros Hn. unfold table_of. rewrite <- flat_map_concat_map.
  rewrite (length_flat_map_const _ _ (Z.to_nat n)).
  - rewrite length_seqZ. nia.
  - intros u _. apply length_row_of.
Qed.

(** X15.  [Edges] hands the cells of the table to the step function row by
    row, each row from left to right, and stops for good -- leaving the
    outer loop too -- as soon as the step function asks to terminate. *)
Theorem X15_edges_walks_the_cells_in_row_major_order
  {St : Type} (g : benchGraph Payload) (f : Step (benchEdge Payload) St) (s : St) :
  Edges g f s = snd (deliver (concat (list_ g)) f s).
Proof. apply Edges_deliver. Qed.

(** X16.  [Vertices] hands the row indices 0, 1, ... below [Order] to the
    step function, in increasing order, until it asks to terminate. *)
Theorem X16_vertices_walks_the_indices_below_order
  {St : Type} (g : benchGraph Payload) (f : Step Z St) (s : St) :
  Vertices g f s = snd (deliver (seqZ 0 (Order g)) f s).
Proof. unfold Vertices, Order. rewrite range_loop_indices. reflexivity. Qed.

(** X17.  A graph the generator returns for [n > 0] vertices delivers
    [n * n] edges from [Edges], among them the zero edge, whose endpoints
    are nil, while [Size] is at most [n * (n - 1)] and [Order] is [n]: the
    cells never set are delivered as edges too. *)
Theorem X17_edges_delivers_unset_cells_too
  (n p : Z) (src : option RS) (clock : RS) (g : benchGraph Payload) (r' : RS) :
  0 < n -> n * n <= max_int -> 1 <= p <= 100 ->
  generator n p src clock = Returned (g, r') ->
  Z.of_nat (length (Edges g keep [])) = n * n /\
  zero_edge ∈ Edges g keep [] /\
  0 <= Size g <= n * (n - 1) /\
  Order g = n.
Proof.
  intros Hn Hnn Hp Hg.
  rewrite generator_returns in Hg by nia.
  injection Hg as <- _.
  rewrite Edges_deliver, deliver_keep.
  unfold Size, Order. cbn [snd app list_ size].
  pose proof (length_hits n p (default clock src) ltac:(lia)) as Hh.
  split; [apply length_concat_table_of; lia|].
  split; [|split].
  - apply list_elem_of_In, in_concat.
    exists (row_of n 0 (hits Intn n p (default clock src))).
    split; apply list_elem_of_In, list_elem_of_lookup; exists 0%nat.
    + apply (lookup_table_of n 0). lia.
    + change 0%nat with (Z.to_nat 0).
      rewrite (lookup_row_of Payload n 0 0) by lia.
      destruct (decide ((0, 0) ∈ hits Intn n p (default clock src))) as [H|H];
        [|reflexivity].
      apply hits_in_range in H. lia.
  - rewrite wrap_int_small; [lia|]. unfold is_int, min_int. nia.
  - rewrite length_table_of. lia.
Qed.

Lemma hits_all (n p : Z) (r : RS) :
  99 <= p -> (forall r, 0 <= fst (Intn 100 r) < 100) ->
  hits Intn n p r = pairs_ne n.
Proof.
  intros Hp Hsrc. unfold hits. apply select_all. intros r0. unfold draw.
  pose proof (Hsrc r0) as H. destruct (Intn 100 r0) as [x r1]. simpl in *.
  apply Z.leb_le. lia.
Qed.

(** X18.  The draw is compared with [<=], and [Intn 100] is below 100: an
    edge probability of 99 (as well as 100) makes every draw a success, so
    the generator returns the complete directed graph -- every cell off the
    diagonal holds its edge, and the size is [n * (n - 1)]. *)
Theorem X18_probability_99_gives_the_complete_graph
  (n p : Z) (src : option RS) (clock : RS) :
  0 <= n <= max_int -> 99 <= p <= 100 ->
  (forall r, 0 <= fst (Intn 100 r) < 100) ->
  exists g r',
    generator n p src clock = Returned (g, r') /\
    Size g = wrap_int (n * (n - 1)) /\
    forall u v, 0 <= u < n -> 0 <= v < n ->
      (row ← index (list_ g) u; index row v)
      = Some (if decide (u = v) then zero_edge else edge u v).
Proof.
  intros Hn Hp Hsrc. rewrite generator_returns by lia.
  rewrite (hits_all n p _ ltac:(lia) Hsrc).
  eexists. eexists. split; [reflexivity|]. unfold Size. cbn [size list_].
  split; [rewrite length_pairs_ne by lia; reflexivity|].
  intros u v Hu Hv. unfold index.
  destruct (Z.leb_spec 0 u) as [_|]; [|lia].
  destruct (Z.leb_spec 0 v) as [_|]; [|lia].
  rewrite lookup_table_of by lia. cbn [mbind option_bind].
  rewrite lookup_row_of by lia. f_equal.
  destruct (decide ((u, v) ∈ pairs_ne n)) as [H|H];
    destruct (decide (u = v)) as [E|E]; try reflexivity; exfalso.
  - apply elem_of_pairs_ne in H. lia.
  - apply H, elem_of_pairs_ne. lia.
Qed.

End BenchFacts.

(** X13 at three vertices: probability 0 panics, probability 50 does not. *)
Lemma X13_three_vertices :
  0 <= 3 <= GoInt.max_int /\
  (Bench.bernoulliDistributionGenerator unit (list Z) Bench.scripted_Intn
     3 0 None [] = Bernoulli.Panicked) /\
  (Bench.bernoulliDistributionGenerator unit (list Z) Bench.scripted_Intn
     3 50 None [] <> Bernoulli.Panicked).
Proof.
  assert (Hn : 0 <= 3 <= GoInt.max_int) by (unfold GoInt.max_int; lia).
  split; [exact Hn|]. split.
  - apply (X13_generator_panics_iff_probability_out_of_range unit (list Z)
             Bench.scripted_Intn 3 0 None [] Hn). lia.
  - intros H.
    apply (X13_generator_panics_iff_probability_out_of_range unit (list Z)
             Bench.scripted_Intn 3 50 None [] Hn) in H. lia.
Defined.

(** X14 at three vertices, probability 50 and draws 10, 90, 50, 51, 0, 99:
    the cells (0,1), (1,0) and (2,0) are set. *)
Lemma X14_three_vertices :
  (0 <= 3 <= GoInt.max_int /\ 1 <= 50 <= 100) /\
  Bench.bernoulliDistributionGenerator unit (list Z) Bench.scripted_Intn
    3 50 (Some [10; 90; 50; 51; 0; 99]) []
  = Bernoulli.Returned
      ({| Bench.targetOrder := 3; Bench.targetDensity := 0%float;
          Bench.maxDegree := 0; Bench.minDegree := 0; Bench.directed := true;
          Bench.list_ :=
            [[Bench.zero_edge; Bench.edge 0 1; Bench.zero_edge];
             [Bench.edge 1 0; Bench.zero_edge; Bench.zero_edge];
             [Bench.edge 2 0; Bench.zero_edge; Bench.zero_edge]];
          Bench.size := 3 |}, []).
Proof.
  assert (Hn : 0 <= 3 <= GoInt.max_int) by (unfold GoInt.max_int; lia).
  assert (Hp : 1 <= 50 <= 100) by lia.
  split; [split; assumption|].
  refine (eq_trans (X14_generator_sets_the_cells_drawn unit (list Z)
                      Bench.scripted_Intn 3 50 _ [] Hn Hp) _).
  vm_compute. reflexivity.
Defined.

(** X17 at three vertices, probability 50 and draws 10, 90, 50, 51, 0, 99:
    nine edges are delivered, three of them set. *)
Lemma X17_three_vertices :
  let g := {| Bench.targetOrder := 3; Bench.targetDensity := 0%float;
              Bench.maxDegree := 0; Bench.minDegree := 0;
              Bench.directed := true;
              Bench.list_ :=
                [[Bench.zero_edge; Bench.edge 0 1; Bench.zero_edge];
                 [Bench.edge 1 0; Bench.zero_edge; Bench.zero_edge];
                 [Bench.edge 2 0; Bench.zero_edge; Bench.zero_edge]];
              Bench.size := 3 |} in
  (0 < 3 /\ 3 * 3 <= GoInt.max_int /\ 1 <= 50 <= 100 /\
   Bench.bernoulliDistributionGenerator unit (list Z) Bench.scripted_Intn
     3 50 (Some [10; 90; 50; 51; 0; 99]) [] = Bernoulli.Returned (g, [])) /\
  Z.of_nat (length (Bench.Edges g Bench.keep [])) = 3 * 3 /\
  Bench.zero_edge ∈ Bench.Edges g Bench.keep [] /\
  0 <= Bench.Size g <= 3 * (3 - 1) /\
  Bench.Order g = 3.
Proof.
  intros g.
  assert (H0 : 0 < 3) by lia.
  assert (Hn : 3 * 3 <= GoInt.max_int) by (unfold GoInt.max_int; lia).
  assert (Hp : 1 <= 50 <= 100) by lia.
  assert (Hg : Bench.bernoulliDistributionGenerator unit (list Z)
                 Bench.scripted_Intn 3 50 (Some [10; 90; 50; 51; 0; 99]) []
               = Bernoulli.Returned (g, [])) by (vm_compute; reflexivity).
  split; [split; [exact H0 | split; [exact Hn | split; [exact Hp | exact Hg]]]|].
  exact (X17_edges_delivers_unset_cells_too unit (list Z) Bench.scripted_Intn
           3 50 _ [] g [] H0 Hn Hp Hg).
Defined.

(** X18 at three vertices with a source that always draws 0 and
    probability 99. *)
Lemma X18_three_vertices :
  (0 <= 3 <= GoInt.max_int /\ 99 <= 99 <= 100 /\
   forall r : unit, 0 <= fst (0, r) < 100) /\
  exists g r',
    Bench.bernoulliDistributionGenerator unit unit (fun _ r => (0, r))
      3 99 None tt = Bernoulli.Returned (g, r') /\
    Bench.Size g = 6 /\
    (row ← Bernoulli.index (Bench.list_ g) 2; Bernoulli.index row 1)
    = Some (Bench.edge 2 1).
Proof.
  assert (Hn : 0 <= 3 <= GoInt.max_int) by (unfold GoInt.max_int; lia).
  assert (Hp : 99 <= 99 <= 100) by lia.
  assert (Hsrc : forall r : unit, 0 <= fst (0, r) < 100) by (intros r; simpl; lia).
  split; [split; [exact Hn | split; [exact Hp | exact Hsrc]]|].
  destruct (X18_probability_99_gives_the_complete_graph unit unit
              (fun _ r => (0, r)) 3 99 None tt Hn Hp Hsrc)
    as (g & r' & Hg & Hs & Hcells).
  exists g, r'. split; [exact Hg|]. split; [exact Hs|].
  apply (Hcells 2 1); lia.
Defined.
